(** * Sliding-window anomaly engine of the firewall anomaly detector

    Shallow embedding of [processor/firewall_anomaly_detector.go]:
    the window store ([updateWindow], [getWindow], [clearWindow]), the
    feature extractor ([extractFeatures]), the heuristic scorer
    ([scoreAnomaly]) and the per-record orchestration ([processLog]).

    Go's [float64] is embedded through the interface [Float64], which has
    two instances:
    - [binary64], Rocq's primitive IEEE-754 binary64 numbers: the numbers
      the program computes with, bit for bit, and executable;
    - [exact], the real numbers: the same code read in exact arithmetic,
      used where a statement is about the mathematical value of a
      statistic rather than about its rounding. *)

From Stdlib Require Import ZArith Floats Reals Lra Lia.
From stdpp Require Import base option list gmap strings.

Set Warnings "-inexact-float".

Local Open Scope string_scope.
Local Open Scope list_scope.
Local Open Scope Z_scope.

(** ** The [float64] interface *)

Class Float64 (F : Type) := {
  f0 : F;                      (* the zero value 0.0 *)
  of_int : Z → F;              (* the conversion float64(n) *)
  fadd : F → F → F;
  fsub : F → F → F;
  fmul : F → F → F;
  fdiv : F → F → F;
  fsqrt : F → F;               (* math.Sqrt *)
  fabs : F → F;                (* math.Abs *)
  fmin : F → F → F;            (* math.Min *)
  flt : F → F → bool;          (* x < y *)
  fle : F → F → bool           (* x <= y *)
}.

Declare Scope f64_scope.
Delimit Scope f64_scope with f64.
Infix "+" := fadd : f64_scope.
Infix "-" := fsub : f64_scope.
Infix "*" := fmul : f64_scope.
Infix "/" := fdiv : f64_scope.
Notation "x <? y" := (flt x y) : f64_scope.
Notation "x >? y" := (flt y x) : f64_scope.
Notation "x <=? y" := (fle x y) : f64_scope.
Notation "x >=? y" := (fle y x) : f64_scope.

(** *** Instance 1: IEEE-754 binary64 *)

(** [float64(n)] for an integer [n]: the nearest binary64 number, ties to
    even. *)
Definition b64_of_int (z : Z) : float :=
  SF2Prim (binary_normalize prec emax z 0 false).

(** [math.Min]: [-Inf] if either argument is [-Inf], [NaN] if either is
    [NaN], [-0] for [Min(-0, ±0)], and the smaller argument otherwise. *)
Definition b64_min (x y : float) : float :=
  if PrimFloat.eqb x neg_infinity || PrimFloat.eqb y neg_infinity then neg_infinity
  else if PrimFloat.is_nan x || PrimFloat.is_nan y then nan
  else if PrimFloat.is_zero x && PrimFloat.eqb x y then
         (if PrimFloat.get_sign x then x else y)
  else if PrimFloat.ltb x y then x else y.

#[global] Instance binary64 : Float64 float := {|
  f0 := 0%float;
  of_int := b64_of_int;
  fadd := PrimFloat.add;
  fsub := PrimFloat.sub;
  fmul := PrimFloat.mul;
  fdiv := PrimFloat.div;
  fsqrt := PrimFloat.sqrt;
  fabs := PrimFloat.abs;
  fmin := b64_min;
  flt := PrimFloat.ltb;
  fle := PrimFloat.leb
|}.

(** *** Instance 2: exact real arithmetic

    Division of reals is total ([x / 0] is a real number), where binary64
    gives an infinity or NaN: statements in exact arithmetic are made only
    where no divisor is zero. *)

Definition R_ltb (x y : R) : bool := if Rlt_dec x y then true else false.
Definition R_leb (x y : R) : bool := if Rle_dec x y then true else false.

#[global] Instance exact : Float64 R := {|
  f0 := 0%R;
  of_int := IZR;
  fadd := Rplus;
  fsub := Rminus;
  fmul := Rmult;
  fdiv := Rdiv;
  fsqrt := sqrt;
  fabs := Rabs;
  fmin := Rmin;
  flt := R_ltb;
  fle := R_leb
|}.

(** ** Numbers, statistics and time *)

Section Numeric.
Context {F : Type} `{!Float64 F}.
Local Open Scope f64_scope.

(** The decimal literals of [scoreAnomaly].  Both operands of each
    quotient are exact, so in binary64 the correctly rounded quotient is
    the number the Go compiler reads for the literal
    (see [lit_0_3_binary64], [lit_0_2_binary64]). *)
Definition lit_0_3 : F := of_int 3 / of_int 10.
Definition lit_0_2 : F := of_int 2 / of_int 10.

(** *** gonum.org/v1/gonum/stat (external dependency)

    [stat.Mean] and [stat.StdDev] with [weights = nil].  [floats.Sum] is
    embedded as the left-to-right loop of its portable implementation.
    The amd64 build of the library sums with several accumulators, in
    another order, so in binary64 the two agree only where the order of
    the additions does not matter: where every partial sum is exact, or
    where every order meets the same additions.  The binary64 statements
    below are made on such samples only; the statements in exact
    arithmetic do not depend on the order. *)

Definition floats_Sum (x : list F) : F := fold_left fadd x f0.

Definition stat_Mean (x : list F) : F :=
  floats_Sum x / of_int (Z.of_nat (length x)).

(** The corrected two-pass algorithm: [ss] accumulates the squared
    deviations and [compensation] the deviations themselves. *)
Definition meanUnnormalisedVariance (x : list F) : F * F * F :=
  let mean := stat_Mean x in
  let '(ss, compensation) :=
    fold_left (λ '(ss, compensation) v,
                 let d := v - mean in (ss + d * d, compensation + d))
              x (f0, f0) in
  let n := of_int (Z.of_nat (length x)) in
  (mean, ss - compensation * compensation / n, n).

(** [unnormalisedVariance / (sumWeights - 1)]: the divisor is the sample
    count minus one. *)
Definition stat_MeanVariance (x : list F) : F * F :=
  let '(mean, unnormalisedVariance, sumWeights) := meanUnnormalisedVariance x in
  (mean, unnormalisedVariance / (sumWeights - of_int 1)).

Definition stat_StdDev (x : list F) : F := fsqrt (snd (stat_MeanVariance x)).
End Numeric.

(** *** [time.Time] and [time.Duration]

    A [time.Time] is embedded as its instant in nanoseconds (an unbounded
    integer: the instants of parsed timestamps, years 0 to 9999, are far
    from the limits of Go's representation).  A [time.Duration] is an
    [int64] count of nanoseconds. *)

Definition wrap64 (z : Z) : Z := (z + 2^63) mod 2^64 - 2^63.
Definition minDuration : Z := - 2^63.
Definition maxDuration : Z := 2^63 - 1.
Definition Second : Z := 1000000000.

(** [t.Add(d)] *)
Definition Time_Add (t d : Z) : Z := t + d.
(** [t.After(u)] *)
Definition Time_After (t u : Z) : bool := u <? t.
(** [t.Sub(u)]: saturates at the limits of [Duration]. *)
Definition Time_Sub (t u : Z) : Z :=
  let d := t - u in
  if (minDuration <=? d) && (d <=? maxDuration) then d
  else if t <? u then minDuration else maxDuration.
(** [time.Since(t)], with [now] the reading of the wall clock. *)
Definition Time_Since (now t : Z) : Z := Time_Sub now t.

(** ** Data model *)

(** [FirewallLog]; the free-form [Raw] map is never read by the engine and
    is left out.  The three metric fields hold Go [int] and [int64]
    values. *)
Record FirewallLog := {
  Timestamp : Z;
  LogSource : string;
  SourceIP : string;
  DestIP : string;
  ConnectionCount : Z;
  BytesSent : Z;
  BytesRecv : Z;
  Action : string;
  Severity : string
}.

Record WindowData {F : Type} := {
  Values : list F;
  IPs : gmap string bool;
  LastMean : F;
  StartTime : Z;
  EndTime : Z
}.
Arguments WindowData : clear implicits.

(** The structured result message of [processLog], with its [topic]
    metadata. *)
Record Decision {F : Type} := {
  d_timestamp : Z;
  d_log_source : string;
  d_window_start : Z;
  d_window_end : Z;
  d_anomaly_score : F;
  d_is_anomaly : bool;
  d_reason : string;
  d_features : gmap string F;
  d_metric_field : string;
  d_metric_value : F;
  d_topic : string
}.
Arguments Decision : clear implicits.

(** [FirewallAnomalyDetector].  [windows] is a [map[string]*WindowData]:
    the map holds addresses into [heap], the arena of all [WindowData]
    objects allocated so far (an object unlinked from the map stays where
    it is, as under garbage collection).  The three metric counters and
    the logger's warnings are part of the state.  The Redis client, the
    broker list and the model path play no part in the engine and are
    left out; [windowsMutex] is the step structure of [call_step]. *)
Record FirewallAnomalyDetector {F : Type} := {
  windowSeconds : Z;
  scoreThreshold : F;
  anomalyTopic : string;
  normalTopic : string;
  sources : gmap string string;
  heap : list (WindowData F);
  windows : gmap string nat;
  processedLogs : nat;
  anomaliesDetected : nat;
  windowsCreated : nat;
  warnings : list string
}.
Arguments FirewallAnomalyDetector : clear implicits.

Section Engine.
Context {F : Type} `{!Float64 F}.
Local Open Scope f64_scope.

Abbreviation Detector := (FirewallAnomalyDetector F).
Abbreviation Window := (WindowData F).

(** *** State updates *)

Definition with_store (f : Detector) (h : list Window) (ws : gmap string nat) : Detector :=
  {| windowSeconds := windowSeconds f; scoreThreshold := scoreThreshold f;
     anomalyTopic := anomalyTopic f; normalTopic := normalTopic f;
     sources := sources f; heap := h; windows := ws;
     processedLogs := processedLogs f; anomaliesDetected := anomaliesDetected f;
     windowsCreated := windowsCreated f; warnings := warnings f |}.

Definition incr_processedLogs (f : Detector) : Detector :=
  {| windowSeconds := windowSeconds f; scoreThreshold := scoreThreshold f;
     anomalyTopic := anomalyTopic f; normalTopic := normalTopic f;
     sources := sources f; heap := heap f; windows := windows f;
     processedLogs := S (processedLogs f); anomaliesDetected := anomaliesDetected f;
     windowsCreated := windowsCreated f; warnings := warnings f |}.

Definition incr_anomaliesDetected (f : Detector) : Detector :=
  {| windowSeconds := windowSeconds f; scoreThreshold := scoreThreshold f;
     anomalyTopic := anomalyTopic f; normalTopic := normalTopic f;
     sources := sources f; heap := heap f; windows := windows f;
     processedLogs := processedLogs f; anomaliesDetected := S (anomaliesDetected f);
     windowsCreated := windowsCreated f; warnings := warnings f |}.

Definition incr_windowsCreated (f : Detector) : Detector :=
  {| windowSeconds := windowSeconds f; scoreThreshold := scoreThreshold f;
     anomalyTopic := anomalyTopic f; normalTopic := normalTopic f;
     sources := sources f; heap := heap f; windows := windows f;
     processedLogs := processedLogs f; anomaliesDetected := anomaliesDetected f;
     windowsCreated := S (windowsCreated f); warnings := warnings f |}.

(** [f.logger.Warnf(...)] *)
Definition Warnf (f : Detector) (msg : string) : Detector :=
  {| windowSeconds := windowSeconds f; scoreThreshold := scoreThreshold f;
     anomalyTopic := anomalyTopic f; normalTopic := normalTopic f;
     sources := sources f; heap := heap f; windows := windows f;
     processedLogs := processedLogs f; anomaliesDetected := anomaliesDetected f;
     windowsCreated := windowsCreated f; warnings := (warnings f ++ [msg])%list |}.

(** [time.Duration(f.windowSeconds) * time.Second], an [int64]
    product. *)
Definition windowDuration (f : Detector) : Z := wrap64 (windowSeconds f * Second).

(** *** Window store *)

(** The mutation of the window object in the second half of
    [updateWindow]. *)
Definition appendSample (d : Z) (value : F) (sourceIP : string) (timestamp : Z)
    (w : Window) : Window :=
  {| Values := Values w ++ [value];
     IPs := <[sourceIP := true]> (IPs w);
     LastMean := LastMean w;
     StartTime := StartTime w;
     EndTime := if Time_After timestamp (EndTime w)
                then Time_Add timestamp d else EndTime w |}.

Definition updateWindow (f : Detector) (windowKey : string) (value : F)
    (sourceIP : string) (timestamp : Z) : Detector :=
  let d := windowDuration f in
  let '(f, p) :=
    match windows f !! windowKey with
    | Some p => (f, p)
    | None =>
        let p := length (heap f) in
        let window := {| Values := []; IPs := ∅; LastMean := f0;
                         StartTime := timestamp;
                         EndTime := Time_Add timestamp d |} in
        (incr_windowsCreated
           (with_store f (heap f ++ [window]) (<[windowKey := p]> (windows f))), p)
    end in
  with_store f (alter (appendSample d value sourceIP timestamp) p (heap f)) (windows f).

(** [getWindow] returns the pointer stored in the map ([None] is
    [nil]). *)
Definition getWindow (f : Detector) (windowKey : string) : option nat :=
  windows f !! windowKey.

Definition clearWindow (f : Detector) (windowKey : string) : Detector :=
  with_store f (heap f) (delete windowKey (windows f)).

(** The object a pointer refers to. *)
Definition load (f : Detector) (p : nat) : option Window := heap f !! p.

(** The window a key currently has, if any. *)
Definition openWindow (f : Detector) (windowKey : string) : option Window :=
  getWindow f windowKey ≫= load f.

(** *** Feature extractor *)

(** The loop that finds the extrema, started at [Values[0]]; the pair is
    [(max, min)]. *)
Definition maxmin_step (acc : F * F) (v : F) : F * F :=
  let '(max, min) := acc in
  let max := if v >? max then v else max in
  let min := if v <? min then v else min in
  (max, min).

Definition extractFeatures (window : Window) : gmap string F :=
  match Values window with
  | [] =>
      list_to_map
        [("mean_value", f0); ("std_dev", f0); ("max_value", f0);
         ("min_value", f0); ("percent_change", f0); ("unique_ips", f0);
         ("peak_to_mean_ratio", f0)]
  | v0 :: _ =>
      let mean := stat_Mean (Values window) in
      let stdDev := stat_StdDev (Values window) in
      let '(max, min) := fold_left maxmin_step (Values window) (v0, v0) in
      let percentChange :=
        if LastMean window >? f0
        then ((mean - LastMean window) / LastMean window) * of_int 100
        else f0 in
      let uniqueIPs := of_int (Z.of_nat (size (IPs window))) in
      let peakToMeanRatio := if mean >? f0 then max / mean else f0 in
      list_to_map
        [("mean_value", mean); ("std_dev", stdDev); ("max_value", max);
         ("min_value", min); ("percent_change", percentChange);
         ("unique_ips", uniqueIPs); ("peak_to_mean_ratio", peakToMeanRatio)]
  end.

(** *** Anomaly scorer *)

(** [features[k]]: a missing key reads as the zero value. *)
Definition feature (features : gmap string F) (k : string) : F :=
  default f0 (features !! k).

Definition scoreAnomaly (features : gmap string F) : F :=
  let score := f0 in
  let score := if fabs (feature features "percent_change") >? of_int 50
               then score + lit_0_3 else score in
  let score := if feature features "peak_to_mean_ratio" >? of_int 3
               then score + lit_0_2 else score in
  let score := if feature features "std_dev" >? feature features "mean_value"
               then score + lit_0_2 else score in
  let score := if feature features "unique_ips" >? of_int 100
               then score + lit_0_3 else score in
  fmin score (of_int 1).
(** *** Engine orchestrator *)

(** The [switch metricField] of [processLog]; [None] is the [default]
    branch. *)
Definition metricSwitch (log : FirewallLog) (metricField : string) : option F :=
  if decide (metricField = "connection_count") then Some (of_int (ConnectionCount log))
  else if decide (metricField = "bytes_sent") then Some (of_int (BytesSent log))
  else if decide (metricField = "bytes_recv") then Some (of_int (BytesRecv log))
  else None.

(** The result message built from a flush-eligible window. *)
Definition buildResult (f : Detector) (log : FirewallLog) (metricField : string)
    (metricValue : F) (window : Window) : Decision F :=
  let features := extractFeatures window in
  let anomalyScore := scoreAnomaly features in
  let isAnomaly := anomalyScore >=? scoreThreshold f in
  {| d_timestamp := EndTime window;
     d_log_source := LogSource log;
     d_window_start := StartTime window;
     d_window_end := EndTime window;
     d_anomaly_score := anomalyScore;
     d_is_anomaly := isAnomaly;
     d_reason := "hike_rate_detected";
     d_features := features;
     d_metric_field := metricField;
     d_metric_value := metricValue;
     d_topic := if isAnomaly then anomalyTopic f else normalTopic f |}.

(** [processLog] returns a message (or [nil]) and an [error]; [now] is the
    wall clock read by [time.Since].  [getWindow f windowKey ≫= load f] is
    the object behind the pointer returned by [getWindow], [None] for the
    [nil] pointer. *)
Definition processLog (f : Detector) (log : FirewallLog) (now : Z)
    : Detector * (option (Decision F) * option string) :=
  let f := incr_processedLogs f in
  match sources f !! LogSource log with
  | None =>
      (Warnf f ("No configuration found for log source: " ++ LogSource log),
       (None, None))
  | Some metricField =>
      match metricSwitch log metricField with
      | None => (Warnf f ("Unknown metric field: " ++ metricField), (None, None))
      | Some metricValue =>
          let windowKey := LogSource log in
          let f := updateWindow f windowKey metricValue (SourceIP log) (Timestamp log) in
          match getWindow f windowKey ≫= load f with
          | None => (f, (None, None))
          | Some window =>
              if (Time_Since now (EndTime window) <? windowDuration f)%Z
              then (f, (None, None))
              else
                let result := buildResult f log metricField metricValue window in
                let f := if d_is_anomaly result then incr_anomaliesDetected f else f in
                let f := clearWindow f windowKey in
                (f, (Some result, None))
          end
      end
  end.

(** A detector as [newFirewallAnomalyDetector] builds it: the configured
    values, no window, all counters at zero. *)
Definition newFirewallAnomalyDetector (windowSeconds : Z) (scoreThreshold : F)
    (anomalyTopic normalTopic : string) (sources : gmap string string) : Detector :=
  {| windowSeconds := windowSeconds; scoreThreshold := scoreThreshold;
     anomalyTopic := anomalyTopic; normalTopic := normalTopic;
     sources := sources; heap := []; windows := ∅;
     processedLogs := 0; anomaliesDetected := 0; windowsCreated := 0;
     warnings := [] |}.

(** *** Concurrent callers

    One call of [processLog] as a sequence of atomic steps.  A step is one
    critical section of [windowsMutex] ([updateWindow], [getWindow],
    [clearWindow]), or the code between two of them.  The caller keeps the
    pointer [window] returned by [getWindow] across steps. *)
Inductive call :=
  | AtEntry (log : FirewallLog)
  | AtUpdate (log : FirewallLog) (metricField : string) (metricValue : F)
  | AtGet (log : FirewallLog) (metricField : string) (metricValue : F)
  | AtCheck (log : FirewallLog) (metricField : string) (metricValue : F)
            (window : option nat)
  | AtClear (log : FirewallLog) (resultMsg : Decision F)
  | Returned (ret : option (Decision F) * option string).

Definition call_step (f : Detector) (now : Z) (c : call) : Detector * call :=
  match c with
  | AtEntry log =>
      let f := incr_processedLogs f in
      match sources f !! LogSource log with
      | None =>
          (Warnf f ("No configuration found for log source: " ++ LogSource log),
           Returned (None, None))
      | Some metricField =>
          match metricSwitch log metricField with
          | None =>
              (Warnf f ("Unknown metric field: " ++ metricField), Returned (None, None))
          | Some metricValue => (f, AtUpdate log metricField metricValue)
          end
      end
  | AtUpdate log metricField metricValue =>
      (updateWindow f (LogSource log) metricValue (SourceIP log) (Timestamp log),
       AtGet log metricField metricValue)
  | AtGet log metricField metricValue =>
      (f, AtCheck log metricField metricValue (getWindow f (LogSource log)))
  | AtCheck log metricField metricValue window =>
      match window ≫= load f with
      | None => (f, Returned (None, None))
      | Some w =>
          if (Time_Since now (EndTime w) <? windowDuration f)%Z
          then (f, Returned (None, None))
          else
            let result := buildResult f log metricField metricValue w in
            (if d_is_anomaly result then incr_anomaliesDetected f else f,
             AtClear log result)
      end
  | AtClear log resultMsg =>
      (clearWindow f (LogSource log), Returned (Some resultMsg, None))
  | Returned ret => (f, Returned ret)
  end.

(** A schedule names, step by step, the caller that moves and the clock
    reading at that moment. *)
Definition sched_step (st : Detector * list call) (ev : nat * Z) : Detector * list call :=
  let '(f, cs) := st in
  let '(i, now) := ev in
  match cs !! i with
  | Some c => let '(f', c') := call_step f now c in (f', <[i := c']> cs)
  | None => (f, cs)
  end.

Definition run_schedule (f : Detector) (cs : list call) (sched : list (nat * Z))
    : Detector * list call :=
  fold_left sched_step sched (f, cs).

(** The decisions the callers have returned or are about to return. *)
Definition decision_of (c : call) : option (Decision F) :=
  match c with
  | AtClear _ resultMsg => Some resultMsg
  | Returned (ret, _) => ret
  | _ => None
  end.

(** One caller running alone for [n] steps. *)
Fixpoint run_call (n : nat) (f : Detector) (now : Z) (c : call) : Detector * call :=
  match n with
  | O => (f, c)
  | S n => let '(f', c') := call_step f now c in run_call n f' now c'
  end.

(** A sequence of [updateWindow] calls, each given as
    [(windowKey, value, sourceIP, timestamp)]. *)
Definition updateWindows (f : Detector) (ops : list (string * F * string * Z)) : Detector :=
  fold_left (λ f '(windowKey, value, sourceIP, timestamp),
               updateWindow f windowKey value sourceIP timestamp) ops f.

(** The states the engine can be in: a new detector, and whatever its
    operations, called one after the other or interleaved step by step,
    make of it. *)
Inductive reachable : Detector → Prop :=
  | reach_new ws th at_ nt src :
      reachable (newFirewallAnomalyDetector ws th at_ nt src)
  | reach_updateWindow f k v ip ts :
      reachable f → reachable (updateWindow f k v ip ts)
  | reach_clearWindow f k :
      reachable f → reachable (clearWindow f k)
  | reach_processLog f log now :
      reachable f → reachable (processLog f log now).1
  | reach_call_step f now c :
      reachable f → reachable (call_step f now c).1.

(** *** The statistics in the words of the specification *)

Definition feature_names : list string :=
  ["mean_value"; "std_dev"; "max_value"; "min_value"; "percent_change";
   "unique_ips"; "peak_to_mean_ratio"].

Definition sum_list (x : list F) : F := foldr fadd f0 x.

Definition mean_of (x : list F) : F := sum_list x / of_int (Z.of_nat (length x)).

(** The sum of the squared deviations from the mean. *)
Definition sum_sq_dev (x : list F) : F :=
  sum_list (map (λ v, (v - mean_of x) * (v - mean_of x)) x).

(** Divisor: the sample count. *)
Definition population_std_dev (x : list F) : F :=
  fsqrt (sum_sq_dev x / of_int (Z.of_nat (length x))).

(** Divisor: the sample count minus one. *)
Definition sample_std_dev (x : list F) : F :=
  fsqrt (sum_sq_dev x / of_int (Z.of_nat (length x) - 1)).

(** The score in the words of the specification: four conditional
    contributions, added up and clamped into [[0, 1]]. *)
Definition contribution (b : bool) (x : F) : F := if b then x else f0.

Definition clamp01 (x : F) : F :=
  if x <? f0 then f0 else if x >? of_int 1 then of_int 1 else x.

Definition spec_score (features : gmap string F) : F :=
  clamp01
    (contribution (fabs (feature features "percent_change") >? of_int 50) lit_0_3
     + contribution (feature features "peak_to_mean_ratio" >? of_int 3) lit_0_2
     + contribution (feature features "std_dev" >? feature features "mean_value") lit_0_2
     + contribution (feature features "unique_ips" >? of_int 100) lit_0_3).

(** "The processed counter is incremented as part of the flush
    transition": one call adds one if it emits a decision and nothing
    otherwise. *)
Definition processed_counts_flushes (f : Detector) (log : FirewallLog) (now : Z) : Prop :=
  let '(f', (ret, _)) := processLog f log now in
  processedLogs f' = (processedLogs f + match ret with Some _ => 1 | None => 0 end)%nat.

(** "An unknown metric field is treated as 0.0 and processing continues":
    the window objects after the call are those after an upsert of the
    sample 0.0. *)
Definition unknown_field_upserts_zero (f : Detector) (log : FirewallLog) (now : Z) : Prop :=
  heap (processLog f log now).1
  = heap (updateWindow f (LogSource log) f0 (SourceIP log) (Timestamp log)).

(** *** Store invariants *)

(** A window object only grows: samples are appended, IPs are added, and
    its start and baseline stay. *)
Definition window_grows (w w' : Window) : Prop :=
  Values w `prefix_of` Values w'
  ∧ dom (IPs w) ⊆ dom (IPs w')
  ∧ StartTime w' = StartTime w
  ∧ LastMean w' = LastMean w.

(** Every window object ends no earlier than it starts. *)
Definition well_timed (f : Detector) : Prop :=
  ∀ p w, heap f !! p = Some w → StartTime w ≤ EndTime w.

(** The store [f'] continues the store [f]: keys keep their window
    objects, objects only grow, and every window created since is the
    window of a key that had none. *)
Definition store_extends (f f' : Detector) : Prop :=
  windowDuration f' = windowDuration f
  ∧ (∀ k p, getWindow f k = Some p → getWindow f' k = Some p)
  ∧ (windowsCreated f' + size (windows f) = windowsCreated f + size (windows f'))%nat
  ∧ (∀ p w, heap f !! p = Some w → ∃ w', heap f' !! p = Some w' ∧ window_grows w w').

(** The outcomes of [processLog]: the record is dropped at one of the two
    look-ups, or it is added to its window, which then stays open or is
    flushed. *)
Inductive outcome (f : Detector) (log : FirewallLog) (now : Z)
    : Detector → option (Decision F) → Prop :=
  | out_no_source :
      sources f !! LogSource log = None →
      outcome f log now
        (Warnf (incr_processedLogs f)
               ("No configuration found for log source: " ++ LogSource log)) None
  | out_unknown_field metricField :
      sources f !! LogSource log = Some metricField →
      metricSwitch log metricField = None →
      outcome f log now
        (Warnf (incr_processedLogs f) ("Unknown metric field: " ++ metricField)) None
  | out_open metricField metricValue :
      sources f !! LogSource log = Some metricField →
      metricSwitch log metricField = Some metricValue →
      let f1 := updateWindow (incr_processedLogs f) (LogSource log) metricValue
                  (SourceIP log) (Timestamp log) in
      (∀ window, openWindow f1 (LogSource log) = Some window →
         Time_Since now (EndTime window) < windowDuration f1) →
      outcome f log now f1 None
  | out_flush metricField metricValue window :
      sources f !! LogSource log = Some metricField →
      metricSwitch log metricField = Some metricValue →
      let f1 := updateWindow (incr_processedLogs f) (LogSource log) metricValue
                  (SourceIP log) (Timestamp log) in
      openWindow f1 (LogSource log) = Some window →
      windowDuration f1 ≤ Time_Since now (EndTime window) →
      let result := buildResult f1 log metricField metricValue window in
      outcome f log now
        (clearWindow (if d_is_anomaly result then incr_anomaliesDetected f1 else f1)
           (LogSource log))
        (Some result).

End Engine.

(** ** The callers of the engine, and the structure of its store *)

Section Callers.
Context {F : Type} `{!Float64 F}.
Local Open Scope f64_scope.

(** The helper [extractMetricValue] of the test file. *)
Definition extractMetricValue (log : FirewallLog) (metricField : string) : F :=
  if decide (metricField = "connection_count") then of_int (ConnectionCount log)
  else if decide (metricField = "bytes_sent") then of_int (BytesSent log)
  else if decide (metricField = "bytes_recv") then of_int (BytesRecv log)
  else f0.

(** The window [updateWindow] allocates for a key that has none, before
    the first sample is added. *)
Definition freshWindow (d timestamp : Z) : WindowData F :=
  {| Values := []; IPs := ∅; LastMean := f0; StartTime := timestamp;
     EndTime := Time_Add timestamp d |}.

(** Every pointer of the map is an allocated object, and no object is the
    window of two keys. *)
Definition store_wf (f : FirewallAnomalyDetector F) : Prop :=
  (∀ k p, windows f !! k = Some p → (p < length (heap f))%nat)
  ∧ (∀ k1 k2 p, windows f !! k1 = Some p → windows f !! k2 = Some p → k1 = k2).

(** What holds of a window object once its first sample is in. *)
Definition window_filled (w : WindowData F) : Prop :=
  Values w ≠ []
  ∧ (1 ≤ size (IPs w) ≤ length (Values w))%nat
  ∧ (∀ ip b, IPs w !! ip = Some b → b = true).

(** The samples and the IPs a sequence of upserts sends to one key. *)
Definition values_for (k : string) (ops : list (string * F * string * Z)) : list F :=
  omap (λ '(k', v, _, _), if decide (k' = k) then Some v else None) ops.

Definition ips_for (k : string) (ops : list (string * F * string * Z)) : gset string :=
  list_to_set (omap (λ '(k', _, ip, _), if decide (k' = k) then Some ip else None) ops).

(** The upsert a caller is about to perform. *)
Definition upsert_of (c : @call F) : option (string * F * string * Z) :=
  match c with
  | AtUpdate log _ metricValue =>
      Some (LogSource log, metricValue, SourceIP log, Timestamp log)
  | _ => None
  end.

(** The four tests of [scoreAnomaly], and the number of them that hold. *)
Definition triggers (features : gmap string F) : list bool :=
  [fabs (feature features "percent_change") >? of_int 50;
   feature features "peak_to_mean_ratio" >? of_int 3;
   feature features "std_dev" >? feature features "mean_value";
   feature features "unique_ips" >? of_int 100].

Definition count_true (bs : list bool) : nat := length (filter (λ b, b = true) bs).

(** Two states that differ in the logged warnings at most. *)
Definition same_engine (f f' : FirewallAnomalyDetector F) : Prop :=
  windowSeconds f' = windowSeconds f ∧ scoreThreshold f' = scoreThreshold f
  ∧ anomalyTopic f' = anomalyTopic f ∧ normalTopic f' = normalTopic f
  ∧ sources f' = sources f ∧ heap f' = heap f ∧ windows f' = windows f
  ∧ processedLogs f' = processedLogs f ∧ anomaliesDetected f' = anomaliesDetected f
  ∧ windowsCreated f' = windowsCreated f.

(** The decisions of successive [processLog] calls, the [i]-th at clock
    reading [clock i]. *)
Fixpoint decisions_of (f : FirewallAnomalyDetector F) (logs : list FirewallLog)
    (clock : nat → Z) (i : nat) : list (Decision F) :=
  match logs with
  | [] => []
  | log :: logs =>
      let r := processLog f log (clock i) in
      match r.2.1 with
      | Some msg => msg :: decisions_of r.1 logs clock (S i)
      | None => decisions_of r.1 logs clock (S i)
      end
  end.

(** The state after successive [processLog] calls. *)
Fixpoint state_after (f : FirewallAnomalyDetector F) (logs : list FirewallLog)
    (clock : nat → Z) (i : nat) : FirewallAnomalyDetector F :=
  match logs with
  | [] => f
  | log :: logs => state_after (processLog f log (clock i)).1 logs clock (S i)
  end.

(** *** [readLogsFromRedis] and [Process]

    The Redis client and [json.Unmarshal] are outside the repository: the
    reply of [LRange] is an input ([inl] an error, [inr] the items), and
    the decoder is a parameter ([inl] the decoding error). *)
Section Batch.
Variable Unmarshal : string → string + FirewallLog.

(** The records among the items that decode, and the warnings for those
    that do not. *)
Definition decoded (items : list string) : list FirewallLog :=
  omap (λ item, match Unmarshal item with inr log => Some log | inl _ => None end) items.

Definition decode_warnings (items : list string) : list string :=
  omap (λ item, match Unmarshal item with
                | inl err => Some ("Failed to parse log entry: " +:+ err)
                | inr _ => None
                end) items.

Definition readLogsFromRedis (f : FirewallAnomalyDetector F)
    (lrange : string + list string)
    : FirewallAnomalyDetector F * (list FirewallLog * option string) :=
  match lrange with
  | inl err => (f, ([], Some err))
  | inr result =>
      let '(f, logs) :=
        fold_left
          (λ '(f, logs) item,
             match Unmarshal item with
             | inl err => (Warnf f ("Failed to parse log entry: " ++ err), logs)
             | inr log => (f, logs ++ [log])
             end)
          result (f, []) in
      (f, (logs, None))
  end.

(** The loop of [Process] over the decoded records; [clock i] is the wall
    clock while the [i]-th record is processed, and the last component
    collects the lines written with [Errorf]. *)
Fixpoint processLogs (f : FirewallAnomalyDetector F) (logs : list FirewallLog)
    (clock : nat → Z) (i : nat)
    : FirewallAnomalyDetector F * list (Decision F) * list string :=
  match logs with
  | [] => (f, [], [])
  | log :: logs =>
      let '(f, (result, err)) := processLog f log (clock i) in
      let '(f, results, errors) := processLogs f logs clock (S i) in
      match err with
      | Some e => (f, results, ("Failed to process log: " +:+ e) :: errors)
      | None =>
          match result with
          | Some msg => (f, msg :: results, errors)
          | None => (f, results, errors)
          end
      end
  end.

(** [Process]: the message batch, the error, and the [Errorf] lines. *)
Definition Process (f : FirewallAnomalyDetector F) (lrange : string + list string)
    (clock : nat → Z)
    : FirewallAnomalyDetector F * (list (Decision F) * option string) * list string :=
  match readLogsFromRedis f lrange with
  | (f, (_, Some err)) =>
      (f, ([], Some err), ["Failed to read logs from Redis: " +:+ err])
  | (f, (logs, None)) =>
      let '(f, results, errors) := processLogs f logs clock 0 in
      (f, (results, None), errors)
  end.
End Batch.
End Callers.

(** *** Test data *)

(** The window of [TestFeatureExtraction]. *)
Definition test_window (ips : gmap string bool) (st en : Z) : WindowData float :=
  {| Values := [10; 20; 30; 40; 50]%float; IPs := ips; LastMean := 25%float;
     StartTime := st; EndTime := en |}.

(** The default configuration of the processor. *)
Definition default_detector : FirewallAnomalyDetector float :=
  newFirewallAnomalyDetector 60 0.7%float "firewall-anomalies" "firewall-normal"
    {["fortinet.firewall" := "connection_count"; "paloalto.firewall" := "bytes_sent"]}.

(** A configuration that maps a source to a field name the engine does not
    know. *)
Definition misconfigured_detector : FirewallAnomalyDetector float :=
  newFirewallAnomalyDetector 60 0.7%float "firewall-anomalies" "firewall-normal"
    {["fortinet.firewall" := "connection_count"; "checkpoint.firewall" := "packet_count"]}.

(** The record of [TestFirewallLogParsing], timestamp 2024-01-15T10:30:00Z
    in nanoseconds since the Unix epoch. *)
Definition test_log : FirewallLog :=
  {| Timestamp := 1705314600000000000; LogSource := "fortinet.firewall";
     SourceIP := "192.168.1.100"; DestIP := "10.0.0.50"; ConnectionCount := 150;
     BytesSent := 0; BytesRecv := 0; Action := "accept"; Severity := "medium" |}.

(** A second record of the same source, one second later. *)
Definition test_log2 : FirewallLog :=
  {| Timestamp := 1705314601000000000; LogSource := "fortinet.firewall";
     SourceIP := "192.168.1.101"; DestIP := "10.0.0.50"; ConnectionCount := 200;
     BytesSent := 0; BytesRecv := 0; Action := "accept"; Severity := "medium" |}.

Definition checkpoint_log : FirewallLog :=
  {| Timestamp := 1705314600000000000; LogSource := "checkpoint.firewall";
     SourceIP := "192.168.1.100"; DestIP := "10.0.0.50"; ConnectionCount := 150;
     BytesSent := 1024; BytesRecv := 2048; Action := "accept"; Severity := "medium" |}.

(** Clock readings: the instant of [test_log], and five minutes later. *)
Definition clock_at_log : Z := 1705314600000000000.
Definition clock_later : Z := 1705314900000000000.

(** Two callers, [0] and [1], each in [processLog] for a record of the
    same source: both add their sample, both fetch the window, both find it
    flush-eligible, both clear it. *)
Definition racing_callers : list (@call float) := [AtEntry test_log; AtEntry test_log2].

Definition racing_schedule : list (nat * Z) :=
  [(0%nat, clock_later); (0%nat, clock_later);     (* caller 0: entry, updateWindow *)
   (1%nat, clock_later); (1%nat, clock_later);     (* caller 1: entry, updateWindow *)
   (0%nat, clock_later); (1%nat, clock_later);     (* both: getWindow *)
   (0%nat, clock_later); (1%nat, clock_later);     (* both: eligibility test, result *)
   (0%nat, clock_later); (1%nat, clock_later)].    (* both: clearWindow *)

(** A sequence of upserts on two sources; the second sample of the first
    source arrives after the window's end. *)
Definition test_ops : list (string * float * string * Z) :=
  [("fortinet.firewall", 150%float, "192.168.1.100", 1705314600000000000);
   ("fortinet.firewall", 200%float, "192.168.1.101", 1705314700000000000);
   ("paloalto.firewall", 1024%float, "192.168.1.100", 1705314600000000000)].

(** A window over the reals. *)
Definition exact_window : WindowData R :=
  {| Values := [1; 2; 6]%R; IPs := ∅; LastMean := 0%R; StartTime := 0; EndTime := 60 |}.

(** A store with one open window. *)
Definition one_window_detector : FirewallAnomalyDetector float :=
  updateWindow default_detector "fortinet.firewall" 150%float "192.168.1.100"
    1705314600000000000.

(** Two callers, each about to add its sample to the window of the same
    key, and a schedule that runs the second one first. *)
Definition upserting_callers : list (@call float) :=
  [AtUpdate test_log "connection_count" 150%float;
   AtUpdate test_log2 "connection_count" 200%float].

Definition upserting_schedule : list (nat * Z) :=
  [(1%nat, clock_at_log); (0%nat, clock_later)].

(** Feature vectors with one and with three of the four tests holding. *)
Definition calm_features : gmap string float :=
  {["percent_change" := 75%float; "peak_to_mean_ratio" := 1.5%float;
    "std_dev" := 5%float; "mean_value" := 10%float; "unique_ips" := 50%float]}.

Definition alarming_features : gmap string float :=
  {["percent_change" := 75%float; "peak_to_mean_ratio" := 4%float;
    "std_dev" := 15%float; "mean_value" := 10%float; "unique_ips" := 50%float]}.

(** A configuration whose window of 9223372037 seconds does not fit the
    [int64] count of nanoseconds. *)
Definition overflowing_detector : FirewallAnomalyDetector float :=
  newFirewallAnomalyDetector 9223372037 0.7%float "firewall-anomalies" "firewall-normal"
    {["fortinet.firewall" := "connection_count"; "paloalto.firewall" := "bytes_sent"]}.

(** * Properties *)

(** ** The binary64 instance *)

(** The quotients standing for the decimal literals are the literals. *)
Lemma lit_0_3_binary64 : lit_0_3 = 0.3%float.
Proof. vm_compute. reflexivity. Qed.

Lemma lit_0_2_binary64 : lit_0_2 = 0.2%float.
Proof. vm_compute. reflexivity. Qed.

Lemma b64_of_int_small :
  (b64_of_int 0, b64_of_int 1, b64_of_int 3, b64_of_int 50, b64_of_int 100)
  = (0, 1, 3, 50, 100)%float.
Proof. vm_compute. reflexivity. Qed.

(** C2: for the samples [10,20,30,40,50] and the baseline 25.0 the
    extracted features are mean_value = 30.0,
    std_dev = 15.811388300841896, max_value = 50.0, min_value = 10.0,
    peak_to_mean_ratio = 1.6666666666666667 and percent_change = 20.0,
    each of them the exact binary64 number. *)
Theorem extractFeatures_test_window (ips : gmap string bool) (st en : Z) :
  let features := extractFeatures (test_window ips st en) in
  features !! "mean_value" = Some 30%float
  ∧ features !! "std_dev" = Some 15.811388300841896%float
  ∧ features !! "max_value" = Some 50%float
  ∧ features !! "min_value" = Some 10%float
  ∧ features !! "peak_to_mean_ratio" = Some 1.6666666666666667%float
  ∧ features !! "percent_change" = Some 20%float.
Proof. repeat split; vm_compute; reflexivity. Qed.

(** The same samples with the divisor of the specification: the population
    standard deviation is the square root of 200. *)
Lemma population_std_dev_test_window :
  population_std_dev [10; 20; 30; 40; 50]%float = 14.142135623730951%float.
Proof. vm_compute. reflexivity. Qed.

(** C1, as stated, fails: on the samples [10,20,30,40,50] the extracted
    std_dev is 15.811388300841896, the square root of 1000/4, and not the
    population standard deviation 14.142135623730951, the square root of
    1000/5. *)
Lemma std_dev_not_population :
  let w := test_window ∅ 0 60 in
  extractFeatures w !! "std_dev" = Some 15.811388300841896%float
  ∧ extractFeatures w !! "std_dev" ≠ Some (population_std_dev (Values w)).
Proof.
  split; [vm_compute; reflexivity |].
  intros Heq.
  apply (f_equal (from_option (PrimFloat.eqb 15.811388300841896%float) false)) in Heq.
  vm_compute in Heq. discriminate.
Qed.

(** A window with a single sample: the divisor is zero and std_dev is
    NaN. *)
Lemma std_dev_single_sample :
  ∃ s, extractFeatures {| Values := [5%float]; IPs := ∅; LastMean := 0%float;
                           StartTime := 0; EndTime := 60 |} !! "std_dev" = Some s
       ∧ PrimFloat.is_nan s = true.
Proof. eexists. split; vm_compute; reflexivity. Qed.

(** C10, as stated, fails in binary64: three samples 0.1 have the sum
    0.30000000000000004, whose third is 0.10000000000000002, above the
    maximum 0.1. *)
Lemma mean_above_max_binary64 :
  let w := {| Values := [0.1; 0.1; 0.1]%float; IPs := ∅; LastMean := 0%float;
              StartTime := 0; EndTime := 60 |} in
  ¬ ∃ mn mu mx,
      extractFeatures w !! "min_value" = Some mn
      ∧ extractFeatures w !! "mean_value" = Some mu
      ∧ extractFeatures w !! "max_value" = Some mx
      ∧ (mn <=? mu)%f64 = true ∧ (mu <=? mx)%f64 = true.
Proof.
  intros w (mn & mu & mx & Hmn & Hmu & Hmx & _ & Hle).
  vm_compute in Hmu, Hmx.
  injection Hmu as <-. injection Hmx as <-.
  vm_compute in Hle. discriminate.
Qed.

(** The sixteen outcomes of the four tests of [scoreAnomaly]. *)
Lemma scoreAnomaly_flags (features : gmap string float) :
  ∃ b1 b2 b3 b4 : bool,
    scoreAnomaly features
    = fmin (fadd (fadd (fadd (fadd f0 (contribution b1 lit_0_3)) (contribution b2 lit_0_2))
                       (contribution b3 lit_0_2)) (contribution b4 lit_0_3)) (of_int 1)
    ∧ spec_score features
      = clamp01 (fadd (fadd (fadd (contribution b1 lit_0_3) (contribution b2 lit_0_2))
                            (contribution b3 lit_0_2)) (contribution b4 lit_0_3)).
Proof.
  exists (fabs (feature features "percent_change") >? of_int 50)%f64,
         (feature features "peak_to_mean_ratio" >? of_int 3)%f64,
         (feature features "std_dev" >? feature features "mean_value")%f64,
         (feature features "unique_ips" >? of_int 100)%f64.
  split; [| reflexivity].
  unfold scoreAnomaly.
  destruct (fabs (feature features "percent_change") >? of_int 50)%f64,
           (feature features "peak_to_mean_ratio" >? of_int 3)%f64,
           (feature features "std_dev" >? feature features "mean_value")%f64,
           (feature features "unique_ips" >? of_int 100)%f64;
    vm_compute; reflexivity.
Qed.

(** ** The window store and the orchestrator, for any arithmetic *)

Section EngineFacts.
Context {F : Type} `{!Float64 F}.
Implicit Types (f : FirewallAnomalyDetector F) (w : WindowData F).

Lemma updateWindow_existing f k v ip ts p :
  windows f !! k = Some p →
  updateWindow f k v ip ts
  = with_store f (alter (appendSample (windowDuration f) v ip ts) p (heap f)) (windows f).
Proof. intros Hk. unfold updateWindow. rewrite Hk. reflexivity. Qed.

Lemma updateWindow_absent f k v ip ts :
  windows f !! k = None →
  updateWindow f k v ip ts
  = incr_windowsCreated
      (with_store f
         (heap f ++ [appendSample (windowDuration f) v ip ts
                       {| Values := []; IPs := ∅; LastMean := f0; StartTime := ts;
                          EndTime := Time_Add ts (windowDuration f) |}])
         (<[k := length (heap f)]> (windows f))).
Proof.
  intros Hk. unfold updateWindow. rewrite Hk. cbn.
  unfold incr_windowsCreated, with_store; cbn. f_equal.
  apply list_eq. intros i.
  destruct (decide (i = length (heap f))) as [-> | Hne].
  - rewrite list_lookup_alter_eq, !lookup_app_r, Nat.sub_diag by lia. reflexivity.
  - rewrite list_lookup_alter_ne by done.
    destruct (decide (i < length (heap f))%nat).
    + rewrite !lookup_app_l by lia. reflexivity.
    + rewrite !lookup_app_r by lia.
      destruct (i - length (heap f))%nat as [| m] eqn:E; [lia | reflexivity].
Qed.

(** [updateWindow] leaves the configuration, the other counters and the
    log alone. *)
Lemma updateWindow_frame f k v ip ts :
  let f' := updateWindow f k v ip ts in
  windowSeconds f' = windowSeconds f ∧ scoreThreshold f' = scoreThreshold f
  ∧ anomalyTopic f' = anomalyTopic f ∧ normalTopic f' = normalTopic f
  ∧ sources f' = sources f ∧ processedLogs f' = processedLogs f
  ∧ anomaliesDetected f' = anomaliesDetected f ∧ warnings f' = warnings f.
Proof. unfold updateWindow. destruct (windows f !! k); cbn; repeat split. Qed.

Lemma updateWindow_windowDuration f k v ip ts :
  windowDuration (updateWindow f k v ip ts) = windowDuration f.
Proof.
  unfold windowDuration. destruct (updateWindow_frame f k v ip ts) as [-> _]. reflexivity.
Qed.

(** For a configured [window_seconds] between 0 and 9223372036 the [int64]
    product is exact and the window duration is that many seconds; above
    this bound the product no longer fits. *)
Lemma windowDuration_seconds f :
  0 ≤ windowSeconds f ≤ 9223372036 →
  windowDuration f = windowSeconds f * Second ∧ 0 ≤ windowDuration f.
Proof.
  intros Hs. unfold windowDuration, wrap64, Second.
  rewrite Z.mod_small by lia. lia.
Qed.

(** What [processLog] returns once it has passed the two look-ups. *)
Lemma processLog_known f log now metricField metricValue :
  sources f !! LogSource log = Some metricField →
  metricSwitch log metricField = Some metricValue →
  let f1 := updateWindow (incr_processedLogs f) (LogSource log) metricValue
              (SourceIP log) (Timestamp log) in
  processLog f log now
  = match getWindow f1 (LogSource log) ≫= load f1 with
    | None => (f1, (None, None))
    | Some window =>
        if (Time_Since now (EndTime window) <? windowDuration f1)%Z
        then (f1, (None, None))
        else
          let result := buildResult f1 log metricField metricValue window in
          (clearWindow (if d_is_anomaly result then incr_anomaliesDetected f1 else f1)
             (LogSource log),
           (Some result, None))
    end.
Proof. intros Hs Hm. unfold processLog. cbn. rewrite Hs, Hm. reflexivity. Qed.

Lemma processLog_outcome f log now :
  ∃ f' ret, processLog f log now = (f', (ret, None)) ∧ outcome f log now f' ret.
Proof.
  unfold processLog. cbn.
  destruct (sources f !! LogSource log) as [metricField |] eqn:Hs.
  2: { eexists _, _. split; [reflexivity |]. by constructor. }
  destruct (metricSwitch log metricField) as [metricValue |] eqn:Hm.
  2: { eexists _, _. split; [reflexivity |]. by econstructor. }
  set (f1 := updateWindow _ _ _ _ _).
  destruct (getWindow f1 (LogSource log) ≫= load f1) as [window |] eqn:Hw.
  2: { eexists _, _. split; [reflexivity |]. eapply out_open; eauto.
       fold f1. unfold openWindow. rewrite Hw. discriminate. }
  destruct (Time_Since now (EndTime window) <? windowDuration f1)%Z eqn:Ht.
  { eexists _, _. split; [reflexivity |]. eapply out_open; eauto.
    fold f1. unfold openWindow. rewrite Hw. intros ? [= <-]. by apply Z.ltb_lt. }
  eexists _, _. split; [reflexivity |].
  eapply out_flush; eauto. apply Z.ltb_ge in Ht. exact Ht.
Qed.
(** *** The store under [updateWindow] *)

Lemma window_grows_refl w : window_grows w w.
Proof. repeat split; done. Qed.

Lemma window_grows_trans w1 w2 w3 :
  window_grows w1 w2 → window_grows w2 w3 → window_grows w1 w3.
Proof.
  intros (Hv & Hi & Hs & Hl) (Hv' & Hi' & Hs' & Hl'). repeat split.
  - by etrans.
  - by etrans.
  - congruence.
  - congruence.
Qed.

Lemma appendSample_grows d v ip ts w : window_grows w (appendSample d v ip ts w).
Proof.
  repeat split; cbn.
  - by apply prefix_app_r.
  - rewrite dom_insert. set_solver.
Qed.

Lemma appendSample_well_timed d v ip ts w :
  0 ≤ d → StartTime w ≤ EndTime w →
  StartTime (appendSample d v ip ts w) ≤ EndTime (appendSample d v ip ts w).
Proof.
  intros Hd Hw. cbn. unfold Time_After, Time_Add.
  destruct (EndTime w <? ts) eqn:E; [apply Z.ltb_lt in E |]; lia.
Qed.

Lemma store_extends_refl f : store_extends f f.
Proof.
  repeat split; try done. intros p w Hw. exists w. split; [done | apply window_grows_refl].
Qed.

Lemma store_extends_trans f1 f2 f3 :
  store_extends f1 f2 → store_extends f2 f3 → store_extends f1 f3.
Proof.
  intros (Hd & Hk & Hc & Hh) (Hd' & Hk' & Hc' & Hh'). repeat split.
  - congruence.
  - eauto.
  - lia.
  - intros p w Hw. destruct (Hh p w Hw) as (w2 & Hw2 & Hg).
    destruct (Hh' p w2 Hw2) as (w3 & Hw3 & Hg'). exists w3. split; [done |].
    by eapply window_grows_trans.
Qed.

Lemma updateWindow_extends f k v ip ts : store_extends f (updateWindow f k v ip ts).
Proof.
  split; [apply updateWindow_windowDuration |].
  destruct (windows f !! k) as [p0 |] eqn:Hk.
  - rewrite (updateWindow_existing _ _ _ _ _ _ Hk). cbn. repeat split; try done.
    intros p w Hw. destruct (decide (p = p0)) as [-> | Hne].
    + eexists. rewrite list_lookup_alter_eq, Hw. split; [reflexivity |].
      apply appendSample_grows.
    + exists w. rewrite list_lookup_alter_ne by done. split; [done | apply window_grows_refl].
  - rewrite (updateWindow_absent _ _ _ _ _ Hk). cbn. repeat split.
    + intros k' p Hp. unfold getWindow in *. cbn.
      rewrite lookup_insert_ne; [done | congruence].
    + rewrite map_size_insert_None by done. lia.
    + intros p w Hw. exists w. split; [| apply window_grows_refl].
      by apply lookup_app_l_Some.
Qed.

(** A property of window objects that the new window has and that
    [appendSample] keeps holds of every object after [updateWindow]. *)
Lemma updateWindow_heap_inv (P : WindowData F → Prop) f k v ip ts :
  (∀ w, P w → P (appendSample (windowDuration f) v ip ts w)) →
  P (appendSample (windowDuration f) v ip ts
       {| Values := []; IPs := ∅; LastMean := f0; StartTime := ts;
          EndTime := Time_Add ts (windowDuration f) |}) →
  (∀ p w, heap f !! p = Some w → P w) →
  ∀ p w, heap (updateWindow f k v ip ts) !! p = Some w → P w.
Proof.
  intros Hstep Hnew Hinv. destruct (windows f !! k) as [p0 |] eqn:Hk.
  - rewrite (updateWindow_existing _ _ _ _ _ _ Hk). intros p w'. cbn.
    destruct (decide (p = p0)) as [-> | Hne].
    + rewrite list_lookup_alter_eq. destruct (heap f !! p0) as [w |] eqn:Hw; [| done].
      intros [= <-]. eauto.
    + rewrite list_lookup_alter_ne by done. apply Hinv.
  - rewrite (updateWindow_absent _ _ _ _ _ Hk). intros p w'. cbn.
    intros [Hw | [_ Hw]]%lookup_app_Some; [by eapply Hinv |].
    apply list_lookup_singleton_Some in Hw as [_ <-]. exact Hnew.
Qed.

Lemma updateWindow_well_timed f k v ip ts :
  0 ≤ windowDuration f → well_timed f → well_timed (updateWindow f k v ip ts).
Proof.
  intros Hd Hwt. unfold well_timed.
  apply (updateWindow_heap_inv (λ w, StartTime w ≤ EndTime w)); [| | exact Hwt].
  - intros w. by apply appendSample_well_timed.
  - apply appendSample_well_timed; [done |]. cbn. unfold Time_Add. lia.
Qed.

Lemma updateWindows_extends f ops :
  store_extends f (updateWindows f ops)
  ∧ (0 ≤ windowDuration f → well_timed f → well_timed (updateWindows f ops)).
Proof.
  unfold updateWindows. revert f.
  induction ops as [| [[[k v] ip] ts] ops IH]; intros f; cbn.
  - split; [apply store_extends_refl | done].
  - destruct (IH (updateWindow f k v ip ts)) as [He Hwt]. split.
    + eapply store_extends_trans; [apply updateWindow_extends | exact He].
    + intros Hd Hw. apply Hwt.
      * by rewrite updateWindow_windowDuration.
      * by apply updateWindow_well_timed.
Qed.

(** C8 (amended): after any sequence of [updateWindow] calls under a
    window duration that is non-negative as the engine computes it (the
    [int64] product [time.Duration(windowSeconds) * time.Second]), a key
    that had a window still has that very window object (it is never
    replaced, and every window created is the window of a key that had
    none, so a key has one open window at most); the window's samples
    extend the earlier ones and its IP set contains the earlier one, so
    neither count decreases; and every window ends no earlier than it
    starts. *)
Theorem updateWindows_invariants f ops :
  0 ≤ windowDuration f →
  (∀ p w, heap f !! p = Some w → StartTime w ≤ EndTime w) →
  let f' := updateWindows f ops in
  (∀ k p, getWindow f k = Some p → getWindow f' k = Some p)
  ∧ (windowsCreated f' + size (windows f) = windowsCreated f + size (windows f'))%nat
  ∧ (∀ k w, openWindow f k = Some w →
       ∃ w', openWindow f' k = Some w'
             ∧ Values w `prefix_of` Values w'
             ∧ (length (Values w) ≤ length (Values w'))%nat
             ∧ dom (IPs w) ⊆ dom (IPs w')
             ∧ (size (IPs w) ≤ size (IPs w'))%nat)
  ∧ (∀ p w, heap f' !! p = Some w → StartTime w ≤ EndTime w).
Proof.
  intros Hd Hwt f'.
  destruct (updateWindows_extends f ops) as [(_ & Hk & Hc & Hh) Hwt'].
  fold f' in Hk, Hc, Hh, Hwt'. repeat split.
  - exact Hk.
  - exact Hc.
  - intros k w Hw. unfold openWindow in *.
    destruct (getWindow f k) as [p |] eqn:Hp; [| done]. cbn in Hw.
    destruct (Hh p w Hw) as (w' & Hw' & Hv & Hi & _).
    exists w'. rewrite (Hk _ _ Hp). cbn. repeat split; try done.
    + by apply prefix_length.
    + rewrite <- !size_dom. by apply subseteq_size.
  - apply Hwt'; done.
Qed.

(** *** The baseline of reachable windows *)

Lemma reachable_LastMean f :
  reachable f → ∀ p w, heap f !! p = Some w → LastMean w = f0.
Proof.
  assert (Hupd : ∀ f k v ip ts,
            (∀ p w, heap f !! p = Some w → LastMean w = f0) →
            ∀ p w, heap (updateWindow f k v ip ts) !! p = Some w → LastMean w = f0).
  { intros g k v ip ts Hg.
    apply (updateWindow_heap_inv (λ w, LastMean w = f0)); [| | exact Hg]; done. }
  induction 1 as [| f k v ip ts _ IH | f k _ IH | f log now _ IH | f now c _ IH].
  - intros p w. cbn. by rewrite lookup_nil.
  - by apply Hupd.
  - exact IH.
  - destruct (processLog_outcome f log now) as (f' & ret & -> & Hout). cbn [fst].
    destruct Hout as [| | | mf mv window Hs Hm f1 Hw Ht result]; try exact IH.
    + by apply Hupd.
    + assert (∀ p w, heap f1 !! p = Some w → LastMean w = f0) as Hf1 by by apply Hupd.
      destruct (d_is_anomaly result); exact Hf1.
  - destruct c; unfold call_step; cbn zeta; repeat case_match; cbn [fst];
      first [exact IH | by apply Hupd].
Qed.

(** *** The feature map *)

Lemma features_lookup (a b c d e g h : F) :
  let m : gmap string F :=
    list_to_map
      [("mean_value", a); ("std_dev", b); ("max_value", c); ("min_value", d);
       ("percent_change", e); ("unique_ips", g); ("peak_to_mean_ratio", h)] in
  m !! "mean_value" = Some a ∧ m !! "std_dev" = Some b ∧ m !! "max_value" = Some c
  ∧ m !! "min_value" = Some d ∧ m !! "percent_change" = Some e
  ∧ m !! "unique_ips" = Some g ∧ m !! "peak_to_mean_ratio" = Some h.
Proof. repeat split; vm_compute; reflexivity. Qed.

(** The seven features of a window with at least one sample. *)
Lemma extractFeatures_nonempty w v0 vs :
  Values w = v0 :: vs →
  let features := extractFeatures w in
  let mean := stat_Mean (Values w) in
  let extrema := fold_left maxmin_step (Values w) (v0, v0) in
  features !! "mean_value" = Some mean
  ∧ features !! "std_dev" = Some (stat_StdDev (Values w))
  ∧ features !! "max_value" = Some extrema.1
  ∧ features !! "min_value" = Some extrema.2
  ∧ features !! "percent_change"
    = Some (if (LastMean w >? f0)%f64
            then fmul (fdiv (fsub mean (LastMean w)) (LastMean w)) (of_int 100)
            else f0)
  ∧ features !! "unique_ips" = Some (of_int (Z.of_nat (size (IPs w))))
  ∧ features !! "peak_to_mean_ratio"
    = Some (if (mean >? f0)%f64 then fdiv extrema.1 mean else f0).
Proof.
  intros Hv. cbn zeta. unfold extractFeatures. rewrite Hv.
  destruct (fold_left maxmin_step (v0 :: vs) (v0, v0)) as [mx mn]. cbn [fst snd].
  apply features_lookup.
Qed.

(** The features of a window without samples. *)
Lemma extractFeatures_empty w k :
  Values w = [] → k ∈ feature_names → extractFeatures w !! k = Some f0.
Proof.
  intros Hv Hk. unfold extractFeatures. rewrite Hv.
  pose proof (features_lookup f0 f0 f0 f0 f0 f0 f0) as (? & ? & ? & ? & ? & ? & ?).
  unfold feature_names in Hk.
  repeat (apply elem_of_cons in Hk as [-> | Hk]; [assumption |]).
  by apply elem_of_nil in Hk.
Qed.

Lemma feature_names_NoDup : NoDup feature_names.
Proof. apply (bool_decide_unpack _). vm_compute. reflexivity. Qed.

(** C5: the map returned by [extractFeatures] has exactly the seven named
    keys, whatever the window; and for a window without samples each of
    the seven is 0.0. *)
Theorem extractFeatures_seven_fields :
  (∀ w, dom (extractFeatures w) = list_to_set feature_names
        ∧ size (extractFeatures w) = 7%nat)
  ∧ (∀ ips lastMean st en,
       Forall (λ k, extractFeatures
                      {| Values := []; IPs := ips; LastMean := lastMean;
                         StartTime := st; EndTime := en |} !! k = Some f0)
              feature_names).
Proof.
  split.
  - intros w.
    assert (dom (extractFeatures w) = list_to_set (C := gset string) feature_names) as Hdom.
    { unfold extractFeatures. destruct (Values w) as [| v0 vs].
      - rewrite dom_list_to_map_L. reflexivity.
      - destruct (fold_left maxmin_step (v0 :: vs) (v0, v0)) as [mx mn].
        rewrite dom_list_to_map_L. reflexivity. }
    split; [exact Hdom |].
    rewrite <- size_dom, Hdom, size_list_to_set by apply feature_names_NoDup.
    reflexivity.
  - intros ips lastMean st en. unfold extractFeatures. cbn [Values].
    pose proof (features_lookup f0 f0 f0 f0 f0 f0 f0) as (? & ? & ? & ? & ? & ? & ?).
    repeat constructor; assumption.
Qed.

(** C7 (amended): every call of [processLog] increments the processed
    counter exactly once, whether the record is dropped, joins an open
    window or flushes it; the call raises no error; the anomalies counter
    is incremented exactly when the call emits a decision that is
    anomalous; and the call that emits a decision is the one that unlinks
    the key's window. *)
Theorem processLog_counters f log now :
  let r := processLog f log now in
  processedLogs r.1 = S (processedLogs f)
  ∧ anomaliesDetected r.1
    = (anomaliesDetected f
       + match r.2.1 with
         | Some msg => if d_is_anomaly msg then 1 else 0
         | None => 0
         end)%nat
  ∧ r.2.2 = None
  ∧ match r.2.1 with
    | Some _ => getWindow r.1 (LogSource log) = None
    | None => True
    end.
Proof.
  destruct (processLog_outcome f log now) as (f' & ret & Heq & Hout).
  cbn zeta. rewrite Heq. cbn [fst snd].
  destruct Hout as [Hs | mf Hs Hm | mf mv Hs Hm f1 Hopen | mf mv window Hs Hm f1 Hw Ht result].
  - cbn. repeat split; lia.
  - cbn. repeat split; lia.
  - destruct (updateWindow_frame (incr_processedLogs f) (LogSource log) mv
                (SourceIP log) (Timestamp log)) as (_ & _ & _ & _ & _ & Hp & Ha & _).
    fold f1 in Hp, Ha. rewrite Hp, Ha. cbn. repeat split; lia.
  - destruct (updateWindow_frame (incr_processedLogs f) (LogSource log) mv
                (SourceIP log) (Timestamp log)) as (_ & _ & _ & _ & _ & Hp & Ha & _).
    fold f1 in Hp, Ha.
    destruct (d_is_anomaly result); cbn; rewrite Hp, Ha; cbn;
      (repeat split; [lia | apply lookup_delete_eq]).
Qed.

(** C3 (amended): a record whose source is mapped to a field name that is
    none of connection_count, bytes_sent, bytes_recv is dropped after the
    warning: the processed counter is incremented, no sample is added to
    any window and no window is created, no decision is emitted and no
    error is raised. *)
Theorem processLog_unknown_metric_field f log now metricField :
  sources f !! LogSource log = Some metricField →
  metricField ≠ "connection_count" →
  metricField ≠ "bytes_sent" →
  metricField ≠ "bytes_recv" →
  let r := processLog f log now in
  r = (Warnf (incr_processedLogs f) ("Unknown metric field: " ++ metricField), (None, None))
  ∧ heap r.1 = heap f ∧ windows r.1 = windows f
  ∧ windowsCreated r.1 = windowsCreated f
  ∧ processedLogs r.1 = S (processedLogs f).
Proof.
  intros Hs H1 H2 H3. cbn zeta.
  assert (processLog f log now
          = (Warnf (incr_processedLogs f) ("Unknown metric field: " ++ metricField),
             (None, None))) as ->.
  { unfold processLog. cbn. rewrite Hs. unfold metricSwitch.
    rewrite !decide_False by done. reflexivity. }
  repeat split.
Qed.

(** One caller running alone through its five steps is [processLog]. *)
Lemma run_call_processLog f log now :
  run_call 5 f now (AtEntry log)
  = ((processLog f log now).1, Returned (processLog f log now).2).
Proof.
  unfold processLog. cbn -[updateWindow buildResult windowDuration].
  destruct (sources f !! LogSource log) as [mf |]; [| reflexivity].
  destruct (metricSwitch log mf) as [mv |]; [| reflexivity].
  cbn -[updateWindow buildResult windowDuration].
  set (f1 := updateWindow _ _ _ _ _).
  destruct (getWindow f1 (LogSource log) ≫= load f1) as [w |]; [| reflexivity].
  destruct (Time_Since now (EndTime w) <? windowDuration f1)%Z; reflexivity.
Qed.

End EngineFacts.

(** ** The scorer and the baseline in binary64 *)

(** C6: [scoreAnomaly] is the sum of the four conditional contributions
    (0.3, 0.2, 0.2, 0.3) clamped into the unit interval, it lies between 0
    and 1, and a decision emitted by [processLog] carries the score of its
    features and is flagged anomalous exactly when that score is greater
    than or equal to the configured threshold. *)
Theorem scoreAnomaly_clamped_sum_threshold :
  (∀ features : gmap string float,
     scoreAnomaly features = spec_score features
     ∧ (f0 <=? scoreAnomaly features)%f64 = true
     ∧ (scoreAnomaly features <=? of_int 1)%f64 = true)
  ∧ (∀ (f : FirewallAnomalyDetector float) log now msg,
       (processLog f log now).2.1 = Some msg →
       d_anomaly_score msg = scoreAnomaly (d_features msg)
       ∧ d_is_anomaly msg = (d_anomaly_score msg >=? scoreThreshold f)%f64).
Proof.
  split.
  - intros features.
    destruct (scoreAnomaly_flags features) as (b1 & b2 & b3 & b4 & -> & ->).
    destruct b1, b2, b3, b4; vm_compute; repeat split; reflexivity.
  - intros f log now msg Hmsg.
    destruct (processLog_outcome f log now) as (f' & ret & Heq & Hout).
    rewrite Heq in Hmsg. cbn in Hmsg. subst ret.
    inversion Hout as [| | | mf mv window Hs Hm f1 Hw Ht result]; subst.
    split; [reflexivity |].
    destruct (updateWindow_frame (incr_processedLogs f) (LogSource log) mv
                (SourceIP log) (Timestamp log)) as (_ & Hth & _).
    cbn -[updateWindow scoreAnomaly extractFeatures].
    unfold f1. rewrite Hth. reflexivity.
Qed.

(** In binary64 zero is not above zero: a zero baseline selects the
    [else] branch of the percent-change rule. *)
Lemma percent_change_zero_baseline (w : WindowData float) :
  LastMean w = 0%float → extractFeatures w !! "percent_change" = Some 0%float.
Proof.
  intros Hl. destruct (Values w) as [| v0 vs] eqn:Hv.
  - refine (extractFeatures_empty (F := float) w _ Hv _).
    unfold feature_names. set_solver.
  - destruct (extractFeatures_nonempty w v0 vs Hv) as (_ & _ & _ & _ & -> & _).
    rewrite Hl. reflexivity.
Qed.

(** C9: in every state the engine can reach, every window object, and so
    every open window, has the baseline 0.0, its percent_change feature is
    0.0, and so is the percent_change of every decision emitted from that
    state. *)
Theorem reachable_baseline_zero (f : FirewallAnomalyDetector float) :
  reachable f →
  (∀ p w, heap f !! p = Some w →
     LastMean w = 0%float ∧ extractFeatures w !! "percent_change" = Some 0%float)
  ∧ (∀ k w, openWindow f k = Some w →
       LastMean w = 0%float ∧ extractFeatures w !! "percent_change" = Some 0%float)
  ∧ (∀ log now msg, (processLog f log now).2.1 = Some msg →
       d_features msg !! "percent_change" = Some 0%float).
Proof.
  intros Hr.
  assert (Hheap : ∀ g : FirewallAnomalyDetector float, reachable g →
            ∀ p w, heap g !! p = Some w →
              LastMean w = 0%float
              ∧ extractFeatures w !! "percent_change" = Some 0%float).
  { intros g Hg p w Hw. pose proof (reachable_LastMean g Hg p w Hw) as Hl.
    split; [exact Hl | by apply percent_change_zero_baseline]. }
  split; [by apply Hheap |]. split.
  - intros k w Hw. unfold openWindow in Hw.
    destruct (getWindow f k) as [p |]; [| done]. by apply (Hheap f Hr p).
  - intros log now msg Hmsg.
    pose proof (reach_processLog f log now Hr) as Hr'.
    destruct (processLog_outcome f log now) as (f' & ret & Heq & Hout).
    rewrite Heq in Hmsg, Hr'. cbn in Hmsg, Hr'. subst ret.
    inversion Hout as [| | | mf mv window Hs Hm f1 Hw Ht result]; subst.
    unfold openWindow in Hw.
    destruct (getWindow f1 (LogSource log)) as [p |]; [| done]. cbn in Hw.
    apply (Hheap _ Hr' p window).
    destruct (d_is_anomaly result); exact Hw.
Qed.

(** ** Concrete runs *)

(** C3, as stated, fails: with the source mapped to the unknown field
    packet_count, [processLog] returns without calling [updateWindow]; no
    window object holds a sample 0.0, none exists at all. *)
Lemma unknown_field_record_dropped :
  let r := processLog misconfigured_detector checkpoint_log clock_later in
  r.2 = (None, None) ∧ heap r.1 = [] ∧ windows r.1 = ∅ ∧ windowsCreated r.1 = 0%nat
  ∧ warnings r.1 = ["Unknown metric field: packet_count"]
  ∧ ¬ unknown_field_upserts_zero misconfigured_detector checkpoint_log clock_later.
Proof.
  repeat split; try (vm_compute; reflexivity).
  unfold unknown_field_upserts_zero. intros Heq.
  apply (f_equal length) in Heq. vm_compute in Heq. discriminate.
Qed.

(** C7, as stated, fails: a record that joins its window without flushing
    it, so that no decision is emitted and the window stays open, still
    increments the processed counter. *)
Lemma processed_without_flush :
  let r := processLog default_detector test_log clock_at_log in
  r.2 = (None, None) ∧ processedLogs r.1 = 1%nat
  ∧ is_Some (getWindow r.1 "fortinet.firewall")
  ∧ ¬ processed_counts_flushes default_detector test_log clock_at_log.
Proof.
  repeat split; try (vm_compute; reflexivity).
  - vm_compute. eexists. reflexivity.
  - vm_compute. discriminate.
Qed.

(** C8, as stated, fails: the configured window of 9223372037 seconds is
    not negative, but its count of nanoseconds wraps to a negative
    [int64], and the window the first upsert opens ends before it
    starts. *)
Lemma window_seconds_overflow_end_before_start :
  let f := overflowing_detector in
  let f' := updateWindows f [("fortinet.firewall", 150%float, "192.168.1.100",
                              1705314600000000000)] in
  0 ≤ windowSeconds f
  ∧ windowDuration f = -9223372036709551616
  ∧ (∀ p w, heap f !! p = Some w → StartTime w ≤ EndTime w)
  ∧ (StartTime <$> heap f' !! 0%nat) = Some 1705314600000000000
  ∧ (EndTime <$> heap f' !! 0%nat) = Some (-7518057436709551616)
  ∧ ¬ (∀ p w, heap f' !! p = Some w → StartTime w ≤ EndTime w).
Proof.
  cbn zeta. split; [vm_compute; discriminate |]. split; [vm_compute; reflexivity |].
  split; [intros p w Hw; vm_compute in Hw; destruct p; discriminate |].
  split; [vm_compute; reflexivity |]. split; [vm_compute; reflexivity |].
  intros H. specialize (H 0%nat). vm_compute in H.
  apply (H _ eq_refl). reflexivity.
Qed.

(** C4 on the code: the snapshot ([getWindow]) and the removal
    ([clearWindow]) are two critical sections.  Under [racing_schedule]
    both callers fetch the one window created, both find it
    flush-eligible, and both return a decision for it: two decisions with
    the same window bounds and the same features for a single window. *)
Theorem racing_callers_two_decisions :
  let '(f', cs) := run_schedule default_detector racing_callers racing_schedule in
  ∃ m0 m1,
    cs = [Returned (Some m0, None); Returned (Some m1, None)]
    ∧ omap decision_of cs = [m0; m1]
    ∧ windowsCreated f' = 1%nat ∧ length (heap f') = 1%nat
    ∧ Values <$> heap f' !! 0%nat = Some [150; 200]%float
    ∧ d_window_start m0 = d_window_start m1
    ∧ d_window_end m0 = d_window_end m1
    ∧ d_features m0 = d_features m1
    ∧ d_features m0 !! "mean_value" = Some 175%float
    ∧ getWindow f' "fortinet.firewall" = None.
Proof. vm_compute. eexists _, _. repeat split. Qed.

(** The same two records handled one call after the other: each call
    flushes the window it has just created, and the two decisions are for
    two different windows. *)
Lemma sequential_callers_two_windows :
  let r0 := processLog default_detector test_log clock_later in
  let r1 := processLog r0.1 test_log2 clock_later in
  ∃ m0 m1,
    r0.2 = (Some m0, None) ∧ r1.2 = (Some m1, None)
    ∧ windowsCreated r1.1 = 2%nat
    ∧ d_window_start m0 ≠ d_window_start m1.
Proof. vm_compute. eexists _, _. repeat split. discriminate. Qed.

(** ** The statistics in exact arithmetic *)

Section Exact.
Local Open Scope R_scope.
Implicit Types (x : list R) (w : WindowData R).

Lemma fold_left_Rplus x a : fold_left Rplus x a = a + foldr Rplus 0 x.
Proof.
  revert a. induction x as [| v x IH]; intros a; cbn; [lra |]. rewrite IH. lra.
Qed.

Lemma floats_Sum_exact x : floats_Sum x = sum_list x.
Proof.
  unfold floats_Sum, sum_list. cbn. rewrite fold_left_Rplus. lra.
Qed.

Lemma stat_Mean_exact x : stat_Mean x = mean_of x.
Proof. unfold stat_Mean, mean_of. by rewrite floats_Sum_exact. Qed.

(** The deviations from the mean add up to the sum minus [n] times the
    mean. *)
Lemma sum_deviations x m :
  foldr Rplus 0 (map (λ v, v - m) x) = foldr Rplus 0 x - INR (length x) * m.
Proof.
  induction x as [| v x IH]; [cbn; lra |].
  cbn [map foldr length]. rewrite IH, S_INR. lra.
Qed.

(** The two accumulators of the two-pass loop. *)
Lemma two_pass_fold x m a b :
  fold_left (λ '(ss, compensation) v,
               let d := v - m in (ss + d * d, compensation + d)) x (a, b)
  = (a + foldr Rplus 0 (map (λ v, (v - m) * (v - m)) x),
     b + foldr Rplus 0 (map (λ v, v - m) x)).
Proof.
  revert a b. induction x as [| v x IH]; intros a b; cbn.
  - f_equal; lra.
  - rewrite IH. f_equal; lra.
Qed.

(** In exact arithmetic the compensation term vanishes, and [stat.StdDev]
    is the square root of the sum of squared deviations over the sample
    count minus one. *)
Lemma stat_StdDev_exact x : x ≠ [] → stat_StdDev x = sample_std_dev x.
Proof.
  intros Hx. unfold stat_StdDev, stat_MeanVariance, meanUnnormalisedVariance, sample_std_dev.
  rewrite stat_Mean_exact. cbn [fadd fsub fmul fdiv fsqrt f0 of_int exact].
  rewrite two_pass_fold. cbn [snd]. f_equal.
  rewrite sum_deviations. unfold sum_sq_dev, sum_list. cbn [fadd fsub fmul f0 exact].
  rewrite minus_IZR. f_equal.
  assert (INR (length x) ≠ 0) as Hn.
  { apply not_0_INR. destruct x; [done | cbn; lia]. }
  assert (foldr Rplus 0 x - INR (length x) * mean_of x = 0) as ->.
  { unfold mean_of, sum_list. cbn [fadd fdiv f0 of_int exact].
    rewrite <- INR_IZR_INZ. field. exact Hn. }
  rewrite <- INR_IZR_INZ. field. exact Hn.
Qed.
(** C1 (amended): for a window with at least two samples the extracted
    std_dev is the sample standard deviation, the square root of the sum
    of squared deviations from the mean divided by the sample count minus
    one (the value of the two-pass computation in exact arithmetic); for a
    window with no samples it is 0. *)
Theorem std_dev_is_sample_std_dev :
  (∀ ips lastMean st en,
     extractFeatures {| Values := []; IPs := ips; LastMean := lastMean;
                        StartTime := st; EndTime := en |} !! "std_dev" = Some 0)
  ∧ (∀ w, (2 ≤ length (Values w))%nat →
       extractFeatures w !! "std_dev" = Some (sample_std_dev (Values w))).
Proof.
  split.
  - intros ips lastMean st en.
    exact (extractFeatures_empty (F := R)
             {| Values := []; IPs := ips; LastMean := lastMean;
                StartTime := st; EndTime := en |} "std_dev" eq_refl
             ltac:(unfold feature_names; set_solver)).
  - intros w Hlen. destruct (Values w) as [| v0 vs] eqn:Hv; [cbn in Hlen; lia |].
    destruct (extractFeatures_nonempty w v0 vs Hv) as (_ & -> & _).
    rewrite Hv. f_equal. by apply stat_StdDev_exact.
Qed.

(** The extrema loop brackets its start values and every sample. *)
Lemma maxmin_fold_bounds x a b :
  let extrema := fold_left maxmin_step x (a, b) in
  a <= extrema.1 ∧ extrema.2 <= b ∧ ∀ v, v ∈ x → extrema.2 <= v <= extrema.1.
Proof.
  revert a b. induction x as [| v x IH]; intros a b; cbn zeta.
  - cbn. split; [lra |]. split; [lra |]. intros u Hu. by apply elem_of_nil in Hu.
  - cbn [fold_left].
    set (a' := if (v >? a)%f64 then v else a).
    set (b' := if (v <? b)%f64 then v else b).
    assert (a <= a' ∧ v <= a') as [Ha Hva].
    { unfold a'. cbn. unfold R_ltb. destruct (Rlt_dec a v); lra. }
    assert (b' <= b ∧ b' <= v) as [Hb Hvb].
    { unfold b'. cbn. unfold R_ltb. destruct (Rlt_dec v b); lra. }
    change (maxmin_step (a, b) v) with (a', b').
    destruct (IH a' b') as (Hmx & Hmn & Hall).
    split; [lra |]. split; [lra |].
    intros u [-> | Hin]%elem_of_cons; [lra | by apply Hall].
Qed.

Lemma sum_list_bounds x lo hi :
  (∀ v, v ∈ x → lo <= v <= hi) →
  INR (length x) * lo <= sum_list x <= INR (length x) * hi.
Proof.
  induction x as [| v x IH]; intros Hall.
  - cbn. lra.
  - cbn [length]. rewrite S_INR. unfold sum_list in *. cbn [foldr fadd f0 exact] in *.
    destruct (Hall v) as [? ?]; [by left |].
    destruct IH as [? ?]; [intros u Hu; apply Hall; by right |]. lra.
Qed.

(** C10 (amended): in exact arithmetic, for every window with at least
    one sample, min_value ≤ mean_value ≤ max_value. *)
Theorem mean_between_extrema_exact w :
  Values w ≠ [] →
  ∃ mn mu mx,
    extractFeatures w !! "min_value" = Some mn
    ∧ extractFeatures w !! "mean_value" = Some mu
    ∧ extractFeatures w !! "max_value" = Some mx
    ∧ mn <= mu <= mx.
Proof.
  intros Hne. destruct (Values w) as [| v0 vs] eqn:Hv; [done |].
  destruct (extractFeatures_nonempty w v0 vs Hv) as (Hmu & _ & Hmx & Hmn & _).
  eexists _, _, _. split; [exact Hmn |]. split; [exact Hmu |]. split; [exact Hmx |].
  rewrite Hv.
  destruct (maxmin_fold_bounds (v0 :: vs) v0 v0) as (_ & _ & Hall).
  apply sum_list_bounds in Hall.
  set (mx := (fold_left maxmin_step (v0 :: vs) (v0, v0)).1) in *.
  set (mn := (fold_left maxmin_step (v0 :: vs) (v0, v0)).2) in *.
  rewrite stat_Mean_exact. unfold mean_of. cbn [fdiv of_int exact].
  rewrite <- INR_IZR_INZ.
  assert (0 < INR (length (v0 :: vs))) as Hn by (apply lt_0_INR; cbn; lia).
  set (n := INR (length (v0 :: vs))) in *.
  set (total := sum_list (v0 :: vs)) in *.
  assert (total / n * n = total) as Hq by (field; lra).
  split; nra.
Qed.

Lemma std_dev_is_sample_std_dev_witness :
  (2 ≤ length (Values exact_window))%nat
  ∧ extractFeatures exact_window !! "std_dev"
    = Some (sample_std_dev (Values exact_window)).
Proof.
  split; [cbn; lia |].
  apply (proj2 std_dev_is_sample_std_dev exact_window). cbn. lia.
Defined.

Lemma mean_between_extrema_exact_witness :
  Values exact_window ≠ []
  ∧ ∃ mn mu mx,
      extractFeatures exact_window !! "min_value" = Some mn
      ∧ extractFeatures exact_window !! "mean_value" = Some mu
      ∧ extractFeatures exact_window !! "max_value" = Some mx
      ∧ mn <= mu <= mx.
Proof.
  split; [discriminate |].
  apply (mean_between_extrema_exact exact_window). discriminate.
Defined.

End Exact.

(** ** Instances of the conditional statements *)

Lemma updateWindows_invariants_witness :
  0 ≤ windowDuration one_window_detector
  ∧ (∀ p w, heap one_window_detector !! p = Some w → StartTime w ≤ EndTime w)
  ∧ (∀ p w, heap (updateWindows one_window_detector test_ops) !! p = Some w →
       StartTime w ≤ EndTime w).
Proof.
  assert (0 ≤ windowDuration one_window_detector) as Hd
    by (vm_compute; discriminate).
  assert (∀ p w, heap one_window_detector !! p = Some w → StartTime w ≤ EndTime w) as Hwt.
  { intros [| p] w Hw; vm_compute in Hw; [| discriminate].
    injection Hw as <-. vm_compute. discriminate. }
  split; [exact Hd |]. split; [exact Hwt |].
  apply (updateWindows_invariants one_window_detector test_ops Hd Hwt).
Defined.

Lemma processLog_unknown_metric_field_witness :
  sources misconfigured_detector !! LogSource checkpoint_log = Some "packet_count"
  ∧ "packet_count" ≠ "connection_count"
  ∧ "packet_count" ≠ "bytes_sent"
  ∧ "packet_count" ≠ "bytes_recv"
  ∧ (processLog misconfigured_detector checkpoint_log clock_later).2 = (None, None)
  ∧ heap (processLog misconfigured_detector checkpoint_log clock_later).1
    = heap misconfigured_detector.
Proof.
  assert (sources misconfigured_detector !! LogSource checkpoint_log = Some "packet_count")
    as Hs by (vm_compute; reflexivity).
  repeat (split; [first [exact Hs | discriminate] |]).
  destruct (processLog_unknown_metric_field misconfigured_detector checkpoint_log
              clock_later "packet_count" Hs) as (Heq & Hheap & _); try discriminate.
  split; [rewrite Heq; reflexivity | exact Hheap].
Defined.

Lemma reachable_baseline_zero_witness :
  reachable one_window_detector
  ∧ ∀ k w, openWindow one_window_detector k = Some w →
      LastMean w = 0%float ∧ extractFeatures w !! "percent_change" = Some 0%float.
Proof.
  assert (reachable one_window_detector) as Hr
    by (unfold one_window_detector, default_detector; apply reach_updateWindow, reach_new).
  split; [exact Hr |].
  apply (reachable_baseline_zero one_window_detector Hr).
Defined.

Lemma scoreAnomaly_clamped_sum_threshold_witness :
  ∃ msg,
    (processLog default_detector test_log clock_later).2.1 = Some msg
    ∧ d_anomaly_score msg = scoreAnomaly (d_features msg)
    ∧ d_is_anomaly msg = (d_anomaly_score msg >=? scoreThreshold default_detector)%f64.
Proof.
  eexists. split; [vm_compute; reflexivity |].
  apply (proj2 scoreAnomaly_clamped_sum_threshold default_detector test_log clock_later).
  vm_compute. reflexivity.
Defined.

(** * Further properties of the engine *)

Set Warnings "-clear-no-such-hyp".

(** ** The structure of the store *)

Section StoreFacts.
Context {F : Type} `{!Float64 F}.
Implicit Types (f : FirewallAnomalyDetector F) (w : WindowData F).

Lemma store_wf_same_store f f' :
  heap f' = heap f → windows f' = windows f → store_wf f → store_wf f'.
Proof. intros Hh Hw [Hv Hi]. unfold store_wf. rewrite Hh, Hw. by split. Qed.

Lemma updateWindow_store_wf f k v ip ts :
  store_wf f → store_wf (updateWindow f k v ip ts).
Proof.
  intros [Hv Hi]. destruct (windows f !! k) as [p0 |] eqn:Hk.
  - rewrite (updateWindow_existing _ _ _ _ _ _ Hk). split; cbn.
    + intros k' p Hp. rewrite length_alter. by eapply Hv.
    + exact Hi.
  - rewrite (updateWindow_absent _ _ _ _ _ Hk). split; cbn.
    + intros k' p. rewrite length_app. cbn.
      destruct (decide (k = k')) as [<- | Hne].
      * rewrite lookup_insert_eq. intros [= <-]. lia.
      * rewrite lookup_insert_ne by done. intros Hp%Hv. lia.
    + intros k1 k2 p.
      destruct (decide (k = k1)) as [<- | Hne1], (decide (k = k2)) as [<- | Hne2];
        rewrite ?lookup_insert_eq, ?lookup_insert_ne by done; try done.
      * intros [= <-] Hp%Hv. lia.
      * intros Hp%Hv [= <-]. lia.
      * apply Hi.
Qed.

Lemma clearWindow_store_wf f k : store_wf f → store_wf (clearWindow f k).
Proof.
  intros [Hv Hi]. split; cbn.
  - intros k' p Hp%lookup_delete_Some. by eapply Hv, Hp.
  - intros k1 k2 p [_ H1]%lookup_delete_Some [_ H2]%lookup_delete_Some. by eapply Hi.
Qed.

Lemma processLog_store_wf f log now : store_wf f → store_wf (processLog f log now).1.
Proof.
  intros Hwf. destruct (processLog_outcome f log now) as (f' & ret & -> & Hout). cbn [fst].
  assert (store_wf (incr_processedLogs f)) as Hwf' by by eapply store_wf_same_store.
  destruct Hout as [| | mf mv Hs Hm f1 Hopen | mf mv window Hs Hm f1 Hw Ht result].
  - by eapply store_wf_same_store; [| | exact Hwf].
  - by eapply store_wf_same_store; [| | exact Hwf].
  - by apply updateWindow_store_wf.
  - apply clearWindow_store_wf.
    assert (store_wf f1) as Hf1 by by apply updateWindow_store_wf.
    destruct (d_is_anomaly result); [| exact Hf1].
    by eapply store_wf_same_store; [| | exact Hf1].
Qed.

Lemma call_step_store_wf f now c : store_wf f → store_wf (call_step f now c).1.
Proof.
  intros Hwf.
  destruct c; unfold call_step; cbn zeta; repeat case_match; cbn [fst];
    first [ exact Hwf
          | by apply updateWindow_store_wf
          | by apply clearWindow_store_wf
          | by eapply store_wf_same_store; [| | exact Hwf] ].
Qed.

(** X1: in every state the engine can reach, each key's pointer is an
    allocated window object and no object is shared by two keys; so a key
    that [getWindow] finds has a window to read. *)
Theorem reachable_store_wf f :
  reachable f →
  store_wf f ∧ ∀ k, is_Some (getWindow f k) → is_Some (openWindow f k).
Proof.
  intros Hr.
  assert (store_wf f) as Hwf.
  { induction Hr as [| f k v ip ts _ IH | f k _ IH | f log now _ IH | f now c _ IH].
    - split; cbn; intros *; by rewrite lookup_empty.
    - by apply updateWindow_store_wf.
    - by apply clearWindow_store_wf.
    - by apply processLog_store_wf.
    - by apply call_step_store_wf. }
  split; [exact Hwf |].
  intros k [p Hp]. unfold openWindow. rewrite Hp. cbn.
  apply lookup_lt_is_Some. destruct Hwf as [Hv _]. by eapply Hv.
Qed.
(** A property of the store that [updateWindow] and [clearWindow] keep,
    and that does not look at the counters of processed records and
    anomalies or at the log, holds in every reachable state. *)
Lemma reachable_store_ind (P : FirewallAnomalyDetector F → Prop) :
  (∀ ws th at_ nt src, P (newFirewallAnomalyDetector ws th at_ nt src)) →
  (∀ f k v ip ts, P f → P (updateWindow f k v ip ts)) →
  (∀ f k, P f → P (clearWindow f k)) →
  (∀ f f', heap f' = heap f → windows f' = windows f →
           windowsCreated f' = windowsCreated f → windowSeconds f' = windowSeconds f →
           P f → P f') →
  ∀ f, reachable f → P f.
Proof.
  intros Hnew Hupd Hclr Hframe f Hr.
  assert (Hincr : ∀ g, P g → P (incr_processedLogs g)) by (intros g; by apply Hframe).
  assert (Hanom : ∀ g, P g → P (incr_anomaliesDetected g)) by (intros g; by apply Hframe).
  assert (Hwarn : ∀ g msg, P g → P (Warnf g msg)) by (intros g msg; by apply Hframe).
  induction Hr as [| f k v ip ts _ IH | f k _ IH | f log now _ IH | f now c _ IH].
  - apply Hnew.
  - by apply Hupd.
  - by apply Hclr.
  - destruct (processLog_outcome f log now) as (f' & ret & -> & Hout). cbn [fst].
    destruct Hout as [| | mf mv Hs Hm f1 Hopen | mf mv window Hs Hm f1 Hw Ht result].
    + by apply Hwarn, Hincr.
    + by apply Hwarn, Hincr.
    + by apply Hupd, Hincr.
    + apply Hclr. assert (P f1) as Hf1 by by apply Hupd, Hincr.
      destruct (d_is_anomaly result); [by apply Hanom | exact Hf1].
  - destruct c; unfold call_step; cbn zeta; repeat case_match; cbn [fst];
      first [ exact IH | by apply Hupd | by apply Hclr | by apply Hwarn, Hincr
            | by apply Hincr | by apply Hanom ].
Qed.

(** [updateWindow] followed by a read: the key's window is its previous
    window, or a fresh one, with the sample added; other keys keep their
    windows. *)
Lemma updateWindow_read f k v ip ts :
  store_wf f →
  let d := windowDuration f in
  let f' := updateWindow f k v ip ts in
  openWindow f' k
  = Some (appendSample d v ip ts (default (freshWindow d ts) (openWindow f k)))
  ∧ (∀ k', k' ≠ k → openWindow f' k' = openWindow f k')
  ∧ windowsCreated f'
    = (windowsCreated f + match openWindow f k with Some _ => 0 | None => 1 end)%nat.
Proof.
  intros [Hv Hi] d f'. unfold f', openWindow, getWindow, load.
  destruct (windows f !! k) as [p0 |] eqn:Hk.
  - rewrite (updateWindow_existing _ _ _ _ _ _ Hk). cbn.
    destruct (lookup_lt_is_Some_2 (heap f) p0 (Hv _ _ Hk)) as [w0 Hw0].
    rewrite Hk. cbn. rewrite list_lookup_alter_eq, Hw0. cbn.
    split; [done |]. split; [| lia].
    intros k' Hne. destruct (windows f !! k') as [p' |] eqn:Hk'; [| done]. cbn.
    rewrite list_lookup_alter_ne; [done |]. intros ->. apply Hne. by eapply Hi.
  - rewrite (updateWindow_absent _ _ _ _ _ Hk). cbn.
    rewrite lookup_insert_eq. cbn.
    rewrite lookup_app_r, Nat.sub_diag by lia. cbn.
    split; [done |]. split; [| lia].
    intros k' Hne. rewrite lookup_insert_ne by done.
    destruct (windows f !! k') as [p' |] eqn:Hk'; [| done]. cbn.
    apply lookup_app_l. by eapply Hv.
Qed.

(** X3: [clearWindow] leaves the key without a window and the other keys
    with theirs, and the next [updateWindow] for the key starts a window
    that holds the new sample alone: one value, one IP, the sample's
    timestamp as start, a zero baseline. *)
Theorem clearWindow_then_updateWindow f k v ip ts :
  store_wf f →
  getWindow (clearWindow f k) k = None
  ∧ (∀ k', k' ≠ k → openWindow (clearWindow f k) k' = openWindow f k')
  ∧ ∃ w, openWindow (updateWindow (clearWindow f k) k v ip ts) k = Some w
         ∧ Values w = [v] ∧ IPs w = {[ip := true]} ∧ LastMean w = f0
         ∧ StartTime w = ts ∧ EndTime w = ts + windowDuration f
         ∧ windowsCreated (updateWindow (clearWindow f k) k v ip ts)
           = S (windowsCreated f).
Proof.
  intros Hwf.
  assert (getWindow (clearWindow f k) k = None) as Hnone by apply lookup_delete_eq.
  split; [exact Hnone |]. split.
  - intros k' Hne. unfold openWindow, getWindow. cbn. by rewrite lookup_delete_ne.
  - destruct (updateWindow_read (clearWindow f k) k v ip ts
                (clearWindow_store_wf f k Hwf)) as (Hk & _ & Hc).
    unfold openWindow in Hk at 2, Hc. rewrite Hnone in Hk, Hc. cbn in Hk, Hc.
    eexists. split; [exact Hk |]. cbn. repeat split.
    + unfold Time_After, Time_Add. by destruct (_ <? _).
    + rewrite Hc. lia.
Qed.

(** X2: [updateWindow] followed by a read.  The key's window holds its
    earlier samples followed by the new one and its earlier IPs with the
    new one added: the number of distinct IPs stays as it is when the IP
    was already there and goes up by one otherwise.  A key without a
    window gets one that starts at the sample's timestamp with a zero
    baseline, and only then does the created-windows counter go up.  The
    windows of all other keys are as before. *)
Theorem updateWindow_openWindow f k v ip ts :
  store_wf f →
  let f' := updateWindow f k v ip ts in
  let old := openWindow f k in
  (∃ w', openWindow f' k = Some w'
         ∧ Values w' = from_option Values [] old ++ [v]
         ∧ IPs w' = <[ip := true]> (from_option IPs ∅ old)
         ∧ size (IPs w')
           = (size (from_option IPs ∅ old)
              + match old ≫= (λ w, IPs w !! ip) with Some _ => 0 | None => 1 end)%nat
         ∧ StartTime w' = from_option StartTime ts old
         ∧ LastMean w' = from_option LastMean f0 old)
  ∧ (∀ k', k' ≠ k → openWindow f' k' = openWindow f k')
  ∧ windowsCreated f'
    = (windowsCreated f + match old with Some _ => 0 | None => 1 end)%nat.
Proof.
  intros Hwf f' old.
  destruct (updateWindow_read f k v ip ts Hwf) as (Hk & Hother & Hc).
  split; [| by split].
  eexists. split; [exact Hk |]. fold old. destruct old as [w |]; cbn.
  - repeat split. destruct (IPs w !! ip) as [b |] eqn:Hip.
    + rewrite map_size_insert_Some by done. lia.
    + rewrite map_size_insert_None by done. lia.
  - repeat split. rewrite map_size_insert_None by apply lookup_empty. lia.
Qed.

Lemma appendSample_filled d v ip ts w :
  (size (IPs w) ≤ length (Values w))%nat →
  (∀ ip' b, IPs w !! ip' = Some b → b = true) →
  window_filled (appendSample d v ip ts w).
Proof.
  intros Hsz Htrue. unfold window_filled. cbn. split; [| split; [split |]].
  - by destruct (Values w).
  - pose proof (map_size_ne_0_lookup_2 (<[ip:=true]> (IPs w)) ip) as Hne.
    rewrite lookup_insert_eq in Hne. specialize (Hne (mk_is_Some _ _ eq_refl)). lia.
  - rewrite length_app. cbn.
    pose proof (map_size_insert ip true (IPs w)) as Hins.
    destruct (IPs w !! ip); cbn in Hins; lia.
  - intros ip' b. destruct (decide (ip = ip')) as [<- | Hne].
    + rewrite lookup_insert_eq. congruence.
    + rewrite lookup_insert_ne by done. apply Htrue.
Qed.

(** X4: in every reachable state each window object holds at least one
    sample, its IP set is not empty and has no more members than there
    are samples, every IP is mapped to [true], and the created-windows
    counter is the number of window objects allocated so far. *)
Theorem reachable_windows_filled f :
  reachable f →
  (∀ p w, heap f !! p = Some w → window_filled w)
  ∧ windowsCreated f = length (heap f).
Proof.
  revert f. apply reachable_store_ind.
  - intros. cbn. split; [| done]. intros p w. by rewrite lookup_nil.
  - intros f k v ip ts [Hfill Hc]. split.
    + apply (updateWindow_heap_inv window_filled); [| | exact Hfill].
      * intros w (_ & [_ Hsz] & Htrue). by apply appendSample_filled.
      * apply appendSample_filled; cbn.
        -- rewrite map_size_empty. lia.
        -- intros ip' b. by rewrite lookup_empty.
    + destruct (windows f !! k) as [p0 |] eqn:Hk.
      * rewrite (updateWindow_existing _ _ _ _ _ _ Hk). cbn. by rewrite length_alter.
      * rewrite (updateWindow_absent _ _ _ _ _ Hk). cbn. rewrite length_app. cbn. lia.
  - intros f k H. exact H.
  - intros f f' Hh Hw Hc Hs [Hfill Hcr]. rewrite Hh, Hc. by split.
Qed.

(** X5: under a non-negative window duration every window object of a
    reachable state spans at least one window duration, from its start to
    its end. *)
Theorem reachable_window_span f :
  reachable f →
  0 ≤ windowDuration f →
  ∀ p w, heap f !! p = Some w → StartTime w + windowDuration f ≤ EndTime w.
Proof.
  revert f.
  apply (reachable_store_ind
           (λ f, 0 ≤ windowDuration f →
                 ∀ p w, heap f !! p = Some w →
                        StartTime w + windowDuration f ≤ EndTime w)).
  - intros ws th at_ nt src _ p w. cbn. by rewrite lookup_nil.
  - intros f k v ip ts IH. rewrite updateWindow_windowDuration. intros Hd.
    apply (updateWindow_heap_inv (λ w, StartTime w + windowDuration f ≤ EndTime w));
      [| | by apply IH].
    + intros w Hw. cbn. unfold Time_After, Time_Add.
      destruct (EndTime w <? ts) eqn:E; [apply Z.ltb_lt in E |]; lia.
    + cbn. unfold Time_After, Time_Add. destruct (_ <? _); lia.
  - intros f k IH. exact IH.
  - intros f f' Hh Hw Hc Hs IH. unfold windowDuration. rewrite Hh, Hs. exact IH.
Qed.

Lemma values_for_cons k k0 (v : F) ip ts ops :
  values_for k ((k0, v, ip, ts) :: ops)
  = if decide (k0 = k) then v :: values_for k ops else values_for k ops.
Proof. unfold values_for. cbn. by destruct (decide (k0 = k)). Qed.

Lemma ips_for_cons k k0 (v : F) ip ts ops :
  ips_for k ((k0, v, ip, ts) :: ops)
  = if decide (k0 = k) then {[ip]} ∪ ips_for k ops else ips_for k ops.
Proof. unfold ips_for. cbn. by destruct (decide (k0 = k)). Qed.

Lemma updateWindows_store_wf f ops : store_wf f → store_wf (updateWindows f ops).
Proof.
  unfold updateWindows. revert f.
  induction ops as [| [[[k v] ip] ts] ops IH]; intros f Hwf; cbn; [done |].
  by apply IH, updateWindow_store_wf.
Qed.

(** After a sequence of [updateWindow] calls a key's window holds its
    earlier samples followed by exactly the values the sequence sent to
    that key, in the order sent, and its IPs are the earlier ones and
    those sent to the key; a key still has no window exactly when it had
    none and nothing was sent to it. *)
Lemma updateWindows_read f ops k :
  store_wf f →
  let f' := updateWindows f ops in
  (openWindow f' k = None ↔ openWindow f k = None ∧ values_for k ops = [])
  ∧ (∀ w', openWindow f' k = Some w' →
       Values w' = from_option Values [] (openWindow f k) ++ values_for k ops
       ∧ dom (IPs w') = from_option (λ w, dom (IPs w)) ∅ (openWindow f k) ∪ ips_for k ops).
Proof.
  unfold updateWindows. revert f.
  induction ops as [| [[[k0 v] ip] ts] ops IH]; intros f Hwf; cbn zeta.
  - cbn. split; [naive_solver |]. intros w' ->. cbn.
    rewrite app_nil_r. split; [done | set_solver].
  - cbn [fold_left]. rewrite values_for_cons, ips_for_cons.
    destruct (updateWindow_read f k0 v ip ts Hwf) as (Hsame & Hother & _).
    destruct (IH (updateWindow f k0 v ip ts) (updateWindow_store_wf _ _ _ _ _ Hwf))
      as (IHnone & IHsome).
    destruct (decide (k0 = k)) as [-> | Hne].
    + rewrite Hsame in IHnone, IHsome. cbn in IHnone, IHsome. split.
      * rewrite IHnone. naive_solver.
      * intros w' Hw'. destruct (IHsome w' Hw') as [-> ->]. split.
        -- rewrite <- app_assoc. cbn.
           by destruct (openWindow f k).
        -- rewrite dom_insert_L. destruct (openWindow f k); cbn; set_solver.
    + rewrite (Hother k) in IHnone, IHsome by done. by split.
Qed.

(** X6: upserts into an empty store.  After any sequence of
    [updateWindow] calls on a new detector, a key has a window exactly
    when the sequence sent it a value; that window holds exactly the
    values sent to the key, in the order sent, and its distinct IPs are
    exactly the IPs sent with them. *)
Theorem updateWindows_from_new ws th at_ nt src ops k :
  let f' := updateWindows (newFirewallAnomalyDetector ws th at_ nt src) ops in
  (openWindow f' k = None ↔ values_for k ops = [])
  ∧ (∀ w', openWindow f' k = Some w' →
       Values w' = values_for k ops
       ∧ dom (IPs w') = ips_for k ops
       ∧ size (IPs w') = size (ips_for k ops)).
Proof.
  set (f := newFirewallAnomalyDetector ws th at_ nt src). cbn zeta.
  assert (store_wf f) as Hwf by (split; cbn; intros *; by rewrite lookup_empty).
  assert (openWindow f k = None) as Hnone by reflexivity.
  destruct (updateWindows_read f ops k Hwf) as (Hn & Hs).
  rewrite Hnone in Hn, Hs. cbn in Hs. split.
  - rewrite Hn. naive_solver.
  - intros w' Hw'. destruct (Hs w' Hw') as [Hv Hi].
    rewrite Hv, <- size_dom, Hi, union_empty_l_L. done.
Qed.

(** ** What one call of [processLog] does *)

Lemma metricSwitch_Some log metricField (mv : F) :
  metricSwitch log metricField = Some mv →
  metricField ∈ ["connection_count"; "bytes_sent"; "bytes_recv"]
  ∧ mv = extractMetricValue log metricField.
Proof.
  unfold metricSwitch, extractMetricValue.
  repeat case_decide; intros [= <-]; subst; (split; [set_solver | done]).
Qed.

(** X7: the helper [extractMetricValue] of the tests and the switch of
    [processLog] read the same number for the three field names the
    engine knows; for every other name the helper answers 0.0, while the
    switch has no value and [processLog] goes no further. *)
Theorem extractMetricValue_metricSwitch log metricField :
  (metricField ∈ ["connection_count"; "bytes_sent"; "bytes_recv"] →
     metricSwitch log metricField = Some (extractMetricValue log metricField))
  ∧ (metricField ∉ ["connection_count"; "bytes_sent"; "bytes_recv"] →
       metricSwitch log metricField = None ∧ extractMetricValue log metricField = f0
       ∧ ∀ f now, sources f !! LogSource log = Some metricField →
           (processLog f log now).2 = (None, None)
           ∧ heap (processLog f log now).1 = heap f).
Proof.
  split.
  - intros Hin. unfold metricSwitch, extractMetricValue.
    repeat case_decide; try done. exfalso. set_solver.
  - intros Hnin.
    assert (metricSwitch log metricField = None) as Hnone.
    { unfold metricSwitch. repeat case_decide; try done; subst; exfalso; set_solver. }
    split; [exact Hnone |]. split.
    + unfold extractMetricValue. repeat case_decide; try done; subst; exfalso; set_solver.
    + intros f now Hs. unfold processLog. cbn. rewrite Hs, Hnone. done.
Qed.

(** The decision of a flushing call is built from the key's window with
    the record's sample added, found flush-eligible. *)
Lemma processLog_flush_window f log now msg :
  store_wf f →
  (processLog f log now).2.1 = Some msg →
  ∃ metricField metricValue,
    sources f !! LogSource log = Some metricField
    ∧ metricSwitch log metricField = Some metricValue
    ∧ let f1 := updateWindow (incr_processedLogs f) (LogSource log) metricValue
                  (SourceIP log) (Timestamp log) in
      let window := appendSample (windowDuration f) metricValue (SourceIP log)
                      (Timestamp log)
                      (default (freshWindow (windowDuration f) (Timestamp log))
                               (openWindow f (LogSource log))) in
      msg = buildResult f1 log metricField metricValue window
      ∧ windowDuration f ≤ Time_Since now (EndTime window).
Proof.
  intros Hwf Hmsg.
  destruct (processLog_outcome f log now) as (f' & ret & Heq & Hout).
  rewrite Heq in Hmsg. cbn in Hmsg. subst ret.
  inversion Hout as [| | | mf mv window Hs Hm f1 Hw Ht result]; subst.
  assert (store_wf (incr_processedLogs f)) as Hwf' by by eapply store_wf_same_store.
  destruct (updateWindow_read (incr_processedLogs f) (LogSource log) mv
              (SourceIP log) (Timestamp log) Hwf') as (Hopen & _).
  fold f1 in Hopen. rewrite Hopen in Hw. injection Hw as Hw.
  exists mf, mv. split; [done |]. split; [done |]. cbn zeta. fold f1.
  unfold f1 in Ht. rewrite updateWindow_windowDuration in Ht.
  change (windowDuration (incr_processedLogs f)) with (windowDuration f) in *.
  change (openWindow (incr_processedLogs f) (LogSource log))
    with (openWindow f (LogSource log)) in *.
  rewrite Hw. by split.
Qed.

(** X8: what a decision carries.  When [processLog] emits a decision, the
    record's source is configured, the decision names the source and the
    configured field, its metric value is the record's value of that
    field and the last sample of the flushed window, its features are
    those of the key's window with this record's sample added, its
    bounds and timestamp are the window's, and its topic is the anomaly
    topic exactly when it is flagged anomalous. *)
Theorem processLog_decision f log now msg :
  store_wf f →
  (processLog f log now).2.1 = Some msg →
  ∃ metricField window,
    sources f !! LogSource log = Some metricField
    ∧ d_log_source msg = LogSource log
    ∧ d_metric_field msg = metricField
    ∧ d_metric_value msg = extractMetricValue log metricField
    ∧ window = appendSample (windowDuration f) (d_metric_value msg) (SourceIP log)
                 (Timestamp log)
                 (default (freshWindow (windowDuration f) (Timestamp log))
                          (openWindow f (LogSource log)))
    ∧ last (Values window) = Some (d_metric_value msg)
    ∧ d_features msg = extractFeatures window
    ∧ d_anomaly_score msg = scoreAnomaly (extractFeatures window)
    ∧ d_window_start msg = StartTime window
    ∧ d_window_end msg = EndTime window
    ∧ d_timestamp msg = EndTime window
    ∧ d_reason msg = "hike_rate_detected"
    ∧ d_topic msg = (if d_is_anomaly msg then anomalyTopic f else normalTopic f).
Proof.
  intros Hwf Hmsg.
  destruct (processLog_flush_window f log now msg Hwf Hmsg)
    as (mf & mv & Hs & Hm & -> & _).
  destruct (metricSwitch_Some _ _ _ Hm) as [_ Hmv].
  destruct (updateWindow_frame (incr_processedLogs f) (LogSource log) mv
              (SourceIP log) (Timestamp log)) as (_ & _ & Hat & Hnt & _).
  eexists mf, _. repeat split; try done.
  - cbn. by rewrite last_snoc.
  - cbn -[scoreAnomaly extractFeatures updateWindow]. by rewrite Hat, Hnt.
Qed.

(** X9: no early flush.  Under a non-negative window duration a
    decision is emitted only when the clock is at least one window
    duration past the window's end, and that end is not before the
    record's own timestamp: a record less than one window duration old
    never triggers a flush. *)
Theorem processLog_flush_delay f log now msg :
  store_wf f →
  0 ≤ windowDuration f →
  (processLog f log now).2.1 = Some msg →
  Timestamp log ≤ d_window_end msg
  ∧ d_window_end msg + windowDuration f ≤ now
  ∧ Timestamp log + windowDuration f ≤ now.
Proof.
  intros Hwf Hd Hmsg.
  destruct (processLog_flush_window f log now msg Hwf Hmsg)
    as (mf & mv & _ & _ & -> & Ht).
  set (window := appendSample _ _ _ _ _) in *.
  change (d_window_end (buildResult _ log mf mv window)) with (EndTime window).
  assert (Timestamp log ≤ EndTime window) as Hts.
  { unfold window. cbn. unfold Time_After, Time_Add.
    destruct (_ <? Timestamp log) eqn:E; [lia | by apply Z.ltb_ge in E]. }
  assert (EndTime window + windowDuration f ≤ now) as Hnow.
  { revert Ht. unfold Time_Since, Time_Sub, minDuration, maxDuration.
    repeat case_match; rewrite ?andb_true_iff, ?andb_false_iff,
      ?Z.leb_le, ?Z.leb_gt, ?Z.ltb_lt, ?Z.ltb_ge in *; lia. }
  repeat split; [exact Hts | exact Hnow | lia].
Qed.

(** X10: the effect of a call on the store.  A record without a
    configured source, or whose configured field is unknown, leaves the
    window objects and the map as they are and yields no decision; every
    other record adds exactly its sample, and the map afterwards is the
    map of that upsert, without the record's key if a decision is
    returned. *)
Theorem processLog_store_effect f log now :
  let r := processLog f log now in
  match sources f !! LogSource log ≫= metricSwitch log with
  | None => r.2.1 = None ∧ heap r.1 = heap f ∧ windows r.1 = windows f
  | Some metricValue =>
      let f1 := updateWindow f (LogSource log) metricValue (SourceIP log)
                  (Timestamp log) in
      heap r.1 = heap f1
      ∧ windowsCreated r.1 = windowsCreated f1
      ∧ windows r.1 = match r.2.1 with
                      | Some _ => delete (LogSource log) (windows f1)
                      | None => windows f1
                      end
  end.
Proof.
  cbn zeta. unfold processLog. cbn -[updateWindow buildResult windowDuration].
  destruct (sources f !! LogSource log) as [mf |]; [| done]. cbn -[updateWindow buildResult windowDuration].
  destruct (metricSwitch log mf) as [mv |]; [| done].
  assert (∀ g : FirewallAnomalyDetector F,
            heap (updateWindow (incr_processedLogs g) (LogSource log) mv
                    (SourceIP log) (Timestamp log))
            = heap (updateWindow g (LogSource log) mv (SourceIP log) (Timestamp log))
            ∧ windowsCreated (updateWindow (incr_processedLogs g) (LogSource log) mv
                    (SourceIP log) (Timestamp log))
            = windowsCreated (updateWindow g (LogSource log) mv (SourceIP log)
                                (Timestamp log))
            ∧ windows (updateWindow (incr_processedLogs g) (LogSource log) mv
                    (SourceIP log) (Timestamp log))
            = windows (updateWindow g (LogSource log) mv (SourceIP log) (Timestamp log)))
    as Hincr.
  { intros g. unfold updateWindow. cbn. by destruct (windows g !! LogSource log). }
  destruct (Hincr f) as (Hh & Hc & Hw).
  set (f1 := updateWindow (incr_processedLogs f) _ _ _ _) in *.
  destruct (getWindow f1 (LogSource log) ≫= load f1) as [w |]; [| done].
  destruct (Time_Since now (EndTime w) <? windowDuration f1)%Z; [done |].
  cbn [fst snd]. destruct (d_is_anomaly _); cbn; rewrite <- ?Hh, <- ?Hc, <- ?Hw; done.
Qed.

(** X14: the window duration the engine computes.  For a configured
    [window_seconds] from 0 to 9223372036 it is that many seconds, in
    nanoseconds, and not negative.  From 9223372037 to 18446744073 the
    [int64] product has wrapped: the duration is negative, and the window
    a key's first sample opens ends before it starts. *)
Theorem windowDuration_range f :
  (0 ≤ windowSeconds f ≤ 9223372036 →
     windowDuration f = windowSeconds f * 1000000000 ∧ 0 ≤ windowDuration f)
  ∧ (9223372037 ≤ windowSeconds f ≤ 18446744073 →
       windowDuration f = windowSeconds f * 1000000000 - 2^64
       ∧ windowDuration f < 0
       ∧ ∀ k v ip ts, store_wf f → openWindow f k = None →
           ∃ w, openWindow (updateWindow f k v ip ts) k = Some w
                ∧ EndTime w < StartTime w).
Proof.
  split.
  - intros Hs. unfold windowDuration, wrap64, Second. rewrite Z.mod_small by lia. lia.
  - intros Hs.
    assert (windowDuration f = windowSeconds f * 1000000000 - 2^64) as Hd.
    { unfold windowDuration, wrap64, Second.
      rewrite <- (Z.mod_add _ (-1)) by lia. rewrite Z.mod_small by lia. lia. }
    split; [exact Hd |]. split; [lia |].
    intros k v ip ts Hwf Hnone.
    destruct (updateWindow_read f k v ip ts Hwf) as (Hk & _).
    rewrite Hnone in Hk. eexists. split; [exact Hk |].
    cbn. unfold Time_After, Time_Add. destruct (_ <? ts); lia.
Qed.

(** ** Concurrent upserts *)

Lemma omap_ext_elem_of {A B} (g h : A → option B) (l : list A) :
  (∀ x, x ∈ l → g x = h x) → omap g l = omap h l.
Proof.
  induction l as [| x l IH]; intros Heq; cbn; [done |].
  rewrite (Heq x) by left. rewrite IH; [done |]. intros y Hy. apply Heq. by right.
Qed.

(** Callers that are each about to call [updateWindow], scheduled once
    each in any order: the state afterwards is the state after the same
    upserts made one after the other in the order of the schedule. *)
Lemma run_schedule_upserts f (cs : list (@call F)) sched :
  NoDup sched.*1 →
  (∀ i, i ∈ sched.*1 → is_Some (cs !! i ≫= upsert_of)) →
  (run_schedule f cs sched).1
  = updateWindows f (omap (λ i, cs !! i ≫= upsert_of) sched.*1)
  ∧ length (omap (λ i, cs !! i ≫= upsert_of) sched.*1) = length sched.
Proof.
  unfold run_schedule, updateWindows. revert f cs.
  induction sched as [| [i now] sched IH]; intros f cs Hnd Hall; [done |].
  rewrite fmap_cons in Hnd, Hall |- *. cbn [fst] in Hnd, Hall |- *.
  apply NoDup_cons in Hnd as [Hi Hnd].
  destruct (Hall i) as [op Hop]; [by left |].
  destruct (cs !! i) as [c |] eqn:Hc; [| done]. cbn in Hop.
  destruct c as [| log mf mv | | | |]; try done. injection Hop as <-.
  cbn [fold_left sched_step omap list_omap]. rewrite Hc.
  cbn [mbind option_bind upsert_of fold_left call_step].
  set (f1 := updateWindow f (LogSource log) mv (SourceIP log) (Timestamp log)).
  set (cs1 := <[i := AtGet log mf mv]> cs).
  assert (∀ j, j ∈ sched.*1 → cs1 !! j = cs !! j) as Hsame.
  { intros j Hj. unfold cs1. apply list_lookup_insert_ne. intros ->. done. }
  destruct (IH f1 cs1 Hnd) as [Hrun Hlen].
  { intros j Hj. rewrite Hsame by done. apply Hall. by right. }
  rewrite (omap_ext_elem_of (λ j, cs1 !! j ≫= upsert_of) (λ j, cs !! j ≫= upsert_of))
    in Hrun, Hlen by (intros j Hj; by rewrite Hsame).
  split; [exact Hrun | cbn; by rewrite Hlen].
Qed.

(** X13: no lost update among concurrent upserts.  When callers that are
    each about to call [updateWindow] are scheduled once each, in any
    order and at any clock readings, every one of their samples is in the
    store afterwards: a key's window holds its earlier samples followed
    by the samples of the scheduled callers for that key, in schedule
    order, so its sample count has grown by the number of those
    callers. *)
Theorem concurrent_upserts_all_kept f (cs : list (@call F)) sched k w' :
  store_wf f →
  NoDup sched.*1 →
  (∀ i, i ∈ sched.*1 → is_Some (cs !! i ≫= upsert_of)) →
  openWindow (run_schedule f cs sched).1 k = Some w' →
  let ops := omap (λ i, cs !! i ≫= upsert_of) sched.*1 in
  length ops = length sched
  ∧ Values w' = from_option Values [] (openWindow f k) ++ values_for k ops
  ∧ length (Values w')
    = (length (from_option Values [] (openWindow f k)) + length (values_for k ops))%nat.
Proof.
  intros Hwf Hnd Hall Hw' ops.
  destruct (run_schedule_upserts f cs sched Hnd Hall) as [Hrun Hlen].
  rewrite Hrun in Hw'.
  destruct (updateWindows_read f ops k Hwf) as (_ & Hsome).
  destruct (Hsome w' Hw') as [Hv _].
  split; [exact Hlen |]. split; [exact Hv |]. by rewrite Hv, length_app.
Qed.

End StoreFacts.

(** ** Batches *)

Section BatchFacts.
Context {F : Type} `{!Float64 F}.
Variable Unmarshal : string → string + FirewallLog.
Implicit Types (f : FirewallAnomalyDetector F).

Lemma readLogs_fold f logs items :
  ∃ f', fold_left
          (λ '(f, logs) item,
             match Unmarshal item with
             | inl err => (Warnf f ("Failed to parse log entry: " ++ err), logs)
             | inr log => (f, logs ++ [log])
             end)
          items (f, logs)
        = (f', logs ++ decoded Unmarshal items)
        ∧ same_engine f f'
        ∧ warnings f' = warnings f ++ decode_warnings Unmarshal items.
Proof.
  revert f logs. induction items as [| item items IH]; intros f logs; cbn.
  - exists f. rewrite !app_nil_r. repeat split.
  - unfold decoded, decode_warnings. cbn. destruct (Unmarshal item) as [err | log].
    + destruct (IH (Warnf f ("Failed to parse log entry: " ++ err)) logs)
        as (f' & -> & Hsame & Hw).
      exists f'. split; [done |]. split.
      * unfold same_engine in *. cbn in Hsame. exact Hsame.
      * rewrite Hw. cbn. by rewrite <- app_assoc.
    + destruct (IH f (logs ++ [log])) as (f' & -> & Hsame & Hw).
      exists f'. split; [by rewrite <- app_assoc |]. by split.
Qed.

(** X11: [readLogsFromRedis].  A failed read returns the error, no
    record and an untouched state.  Otherwise there is no error, the
    records returned are exactly the items that decode, in their order,
    each item that does not decode is skipped with one warning, and
    nothing but the warnings changes in the state: a malformed item never
    stops the batch. *)
Theorem readLogsFromRedis_decoded f :
  (∀ err, readLogsFromRedis Unmarshal f (inl err) = (f, ([], Some err)))
  ∧ (∀ items,
       let r := readLogsFromRedis Unmarshal f (inr items) in
       r.2 = (decoded Unmarshal items, None)
       ∧ same_engine f r.1
       ∧ warnings r.1 = warnings f ++ decode_warnings Unmarshal items
       ∧ (length (decoded Unmarshal items) + length (decode_warnings Unmarshal items)
          = length items)%nat).
Proof.
  split; [done |]. intros items. cbn zeta. unfold readLogsFromRedis.
  destruct (readLogs_fold f [] items) as (f' & -> & Hsame & Hw). cbn.
  repeat split; try apply Hsame; try done.
  unfold decoded, decode_warnings. clear.
  induction items as [| item items IH]; cbn; [done |].
  destruct (Unmarshal item); cbn; lia.
Qed.

Lemma processLogs_run f logs clock i :
  processLogs f logs clock i
  = (state_after f logs clock i, decisions_of f logs clock i, []).
Proof.
  revert f i. induction logs as [| log logs IH]; intros f i; cbn; [done |].
  destruct (processLog_outcome f log (clock i)) as (f' & ret & Heq & _).
  rewrite Heq. cbn. rewrite IH. by destruct ret.
Qed.

Lemma state_after_counters f logs clock i :
  processedLogs (state_after f logs clock i) = (processedLogs f + length logs)%nat
  ∧ (anomaliesDetected (state_after f logs clock i)
     = anomaliesDetected f
       + length (filter (λ msg, d_is_anomaly msg = true) (decisions_of f logs clock i)))%nat
  ∧ (length (decisions_of f logs clock i) ≤ length logs)%nat
  ∧ (store_wf f → store_wf (state_after f logs clock i)).
Proof.
  revert f i. induction logs as [| log logs IH]; intros f i; cbn.
  - split; [lia | split; [lia | split; [lia | auto]]].
  - destruct (IH (processLog f log (clock i)).1 (S i)) as (Hp & Ha & Hl & Hwf).
    pose proof (processLog_store_wf f log (clock i)) as Hwf1.
    destruct (processLog_outcome f log (clock i)) as (f' & ret & Heq & Hout).
    rewrite Heq in *. cbn [fst snd] in *.
    assert (processedLogs f' = S (processedLogs f)
            ∧ anomaliesDetected f'
              = (anomaliesDetected f
                 + match ret with
                   | Some msg => if d_is_anomaly msg then 1 else 0
                   | None => 0
                   end)%nat) as [Hp1 Ha1].
    { destruct Hout as [| | mf mv Hs Hm f1 Hopen | mf mv window Hs Hm f1 Hw Ht result];
        try (cbn; split; lia).
      - destruct (updateWindow_frame (incr_processedLogs f) (LogSource log) mv
                    (SourceIP log) (Timestamp log)) as (_ & _ & _ & _ & _ & Hp1 & Ha1 & _).
        fold f1 in Hp1, Ha1. rewrite Hp1, Ha1. cbn. split; lia.
      - destruct (updateWindow_frame (incr_processedLogs f) (LogSource log) mv
                    (SourceIP log) (Timestamp log)) as (_ & _ & _ & _ & _ & Hp1 & Ha1 & _).
        fold f1 in Hp1, Ha1.
        destruct (d_is_anomaly result); cbn; rewrite Hp1, Ha1; cbn; split; lia. }
    rewrite Hp, Ha, Hp1, Ha1.
    destruct ret as [msg |]; cbv beta iota.
    + rewrite filter_cons. destruct (d_is_anomaly msg).
      * rewrite decide_True by done. cbn [length]. split; [lia | split; [lia | split; [lia | auto]]].
      * rewrite decide_False by done. cbn [length].
        split; [lia | split; [lia | split; [lia | auto]]].
    + split; [lia | split; [lia | split; [lia | auto]]].
Qed.

(** X12: [Process].  If the read from Redis fails, the error is returned
    with no message, one error line is logged and the state is
    untouched.  Otherwise no error is returned or logged, the batch
    holds, in order, the decisions of the successive [processLog] calls
    on the records that decode, never more messages than records, the
    processed counter goes up by the number of those records, and the
    anomalies counter by the number of messages flagged anomalous. *)
Theorem Process_batch f clock :
  (∀ err, Process Unmarshal f (inl err) clock
          = (f, ([], Some err), ["Failed to read logs from Redis: " +:+ err]))
  ∧ (∀ items,
       let logs := decoded Unmarshal items in
       let f0 := (readLogsFromRedis Unmarshal f (inr items)).1 in
       let '(f', (results, err), errors) := Process Unmarshal f (inr items) clock in
       err = None ∧ errors = []
       ∧ results = decisions_of f0 logs clock 0
       ∧ f' = state_after f0 logs clock 0
       ∧ (length results ≤ length logs)%nat
       ∧ processedLogs f' = (processedLogs f + length logs)%nat
       ∧ anomaliesDetected f'
         = (anomaliesDetected f
            + length (filter (λ msg, d_is_anomaly msg = true) results))%nat).
Proof.
  split; [done |]. intros items. cbn zeta. unfold Process, readLogsFromRedis.
  destruct (readLogs_fold f [] items) as (f0 & -> & Hsame & _). cbn [fst snd app].
  rewrite processLogs_run.
  destruct (state_after_counters f0 (decoded Unmarshal items) clock 0)
    as (Hp & Ha & Hl & _).
  destruct Hsame as (_ & _ & _ & _ & _ & _ & _ & Hp0 & Ha0 & _).
  repeat split; try done; congruence.
Qed.
End BatchFacts.

(** ** The scorer in binary64 *)

Lemma scoreAnomaly_by_triggers (features : gmap string float) :
  ∃ b1 b2 b3 b4 : bool,
    triggers features = [b1; b2; b3; b4]
    ∧ scoreAnomaly features
      = fmin (fadd (fadd (fadd (fadd f0 (contribution b1 lit_0_3)) (contribution b2 lit_0_2))
                         (contribution b3 lit_0_2)) (contribution b4 lit_0_3)) (of_int 1).
Proof.
  exists (fabs (feature features "percent_change") >? of_int 50)%f64,
         (feature features "peak_to_mean_ratio" >? of_int 3)%f64,
         (feature features "std_dev" >? feature features "mean_value")%f64,
         (feature features "unique_ips" >? of_int 100)%f64.
  split; [reflexivity |].
  unfold scoreAnomaly.
  destruct (fabs (feature features "percent_change") >? of_int 50)%f64,
           (feature features "peak_to_mean_ratio" >? of_int 3)%f64,
           (feature features "std_dev" >? feature features "mean_value")%f64,
           (feature features "unique_ips" >? of_int 100)%f64;
    vm_compute; reflexivity.
Qed.

(** X15: the default threshold.  A score reaches 0.7 exactly when at
    least three of the four tests hold, it is positive exactly when at
    least one holds, and it is 1 exactly when all four hold; so under a
    threshold of 0.7 a decision of [processLog] is flagged anomalous
    exactly when at least three tests hold of its features.  The
    rounding of the binary64 sums does not move any of the three
    boundaries. *)
Theorem scoreAnomaly_default_threshold :
  (∀ features : gmap string float,
     PrimFloat.leb 0.7 (scoreAnomaly features)
     = bool_decide (3 ≤ count_true (triggers features))%nat
     ∧ PrimFloat.ltb 0 (scoreAnomaly features)
       = bool_decide (1 ≤ count_true (triggers features))%nat
     ∧ PrimFloat.eqb (scoreAnomaly features) 1
       = bool_decide (count_true (triggers features) = 4%nat))
  ∧ (∀ (f : FirewallAnomalyDetector float) log now msg,
       scoreThreshold f = 0.7%float →
       (processLog f log now).2.1 = Some msg →
       d_is_anomaly msg
       = bool_decide (3 ≤ count_true (triggers (d_features msg)))%nat).
Proof.
  assert (Hscore : ∀ features : gmap string float,
            PrimFloat.leb 0.7 (scoreAnomaly features)
            = bool_decide (3 ≤ count_true (triggers features))%nat
            ∧ PrimFloat.ltb 0 (scoreAnomaly features)
              = bool_decide (1 ≤ count_true (triggers features))%nat
            ∧ PrimFloat.eqb (scoreAnomaly features) 1
              = bool_decide (count_true (triggers features) = 4%nat)).
  { intros features.
    destruct (scoreAnomaly_by_triggers features) as (b1 & b2 & b3 & b4 & -> & ->).
    destruct b1, b2, b3, b4; vm_compute; repeat split; reflexivity. }
  split; [exact Hscore |].
  intros f log now msg Hth Hmsg.
  destruct (processLog_outcome f log now) as (f' & ret & Heq & Hout).
  rewrite Heq in Hmsg. cbn in Hmsg. subst ret.
  inversion Hout as [| | | mf mv window Hs Hm f1 Hw Ht result]; subst.
  destruct (updateWindow_frame (incr_processedLogs f) (LogSource log) mv
              (SourceIP log) (Timestamp log)) as (_ & Hth1 & _).
  fold f1 in Hth1. cbn in Hth1.
  change (d_features result) with (extractFeatures window).
  destruct (Hscore (extractFeatures window)) as (<- & _).
  change (d_is_anomaly result)
    with (fle (scoreThreshold f1) (scoreAnomaly (extractFeatures window))).
  by rewrite Hth1, Hth.
Qed.

(** X16: the score is monotone in the four tests: if every test that
    holds of one feature vector also holds of another, the score of the
    other is at least as high. *)
Theorem scoreAnomaly_monotone (features features' : gmap string float) :
  Forall2 (λ b b' : bool, b = true → b' = true) (triggers features) (triggers features') →
  PrimFloat.leb (scoreAnomaly features) (scoreAnomaly features') = true.
Proof.
  destruct (scoreAnomaly_by_triggers features) as (b1 & b2 & b3 & b4 & -> & ->).
  destruct (scoreAnomaly_by_triggers features') as (c1 & c2 & c3 & c4 & -> & ->).
  intros H.
  apply Forall2_cons_1 in H as [H1 H]. apply Forall2_cons_1 in H as [H2 H].
  apply Forall2_cons_1 in H as [H3 H]. apply Forall2_cons_1 in H as [H4 _].
  destruct b1, c1; try discriminate (H1 eq_refl);
    destruct b2, c2; try discriminate (H2 eq_refl);
    destruct b3, c3; try discriminate (H3 eq_refl);
    destruct b4, c4; try discriminate (H4 eq_refl);
    vm_compute; reflexivity.
Qed.

(** ** Relations between the features in exact arithmetic *)

Section ExactFacts.
Local Open Scope R_scope.
Implicit Types (x : list R) (w : WindowData R).

Lemma sum_squares_nonneg x m : 0 <= foldr Rplus 0 (map (λ v, (v - m) * (v - m)) x).
Proof.
  induction x as [| v x IH]; cbn; [lra |].
  pose proof (Rle_0_sqr (v - m)) as Hsq. unfold Rsqr in Hsq. lra.
Qed.

Lemma sum_squares_zero x m :
  foldr Rplus 0 (map (λ v, (v - m) * (v - m)) x) = 0 ↔ ∀ v, v ∈ x → v = m.
Proof.
  induction x as [| v x IH]; cbn.
  - split; [| done]. intros _ v Hv. by apply elem_of_nil in Hv.
  - pose proof (sum_squares_nonneg x m) as Hnn. split.
    + intros Hz. pose proof (Rle_0_sqr (v - m)) as Hsq. unfold Rsqr in Hsq.
      assert ((v - m) * (v - m) = 0) as Hv by lra.
      assert (foldr Rplus 0 (map (λ v, (v - m) * (v - m)) x) = 0) as Hx by lra.
      intros u [-> | Hu]%elem_of_cons; [| by apply IH].
      apply Rmult_integral in Hv. lra.
    + intros Hall. rewrite (Hall v) by left.
      assert (foldr Rplus 0 (map (λ v, (v - m) * (v - m)) x) = 0) as ->.
      { apply IH. intros u Hu. apply Hall. by right. }
      ring.
Qed.

Lemma mean_of_bounds x lo hi :
  x ≠ [] → (∀ v, v ∈ x → lo <= v <= hi) → lo <= mean_of x <= hi.
Proof.
  intros Hne Hall. apply sum_list_bounds in Hall.
  unfold mean_of. cbn [fdiv of_int exact]. rewrite <- INR_IZR_INZ.
  assert (0 < INR (length x)) as Hn.
  { apply lt_0_INR. destruct x; [done | cbn; lia]. }
  set (n := INR (length x)) in *. set (total := sum_list x) in *.
  assert (total / n * n = total) as Hq by (field; lra).
  split; nra.
Qed.

(** X17: in exact arithmetic, for a window with at least one sample,
    when the mean is positive peak_to_mean_ratio is max_value /
    mean_value and at least 1, and when the mean is not positive the
    ratio is 0. *)
Theorem exact_feature_relations w :
  Values w ≠ [] →
  ∃ mu mx ratio,
    extractFeatures w !! "mean_value" = Some mu
    ∧ extractFeatures w !! "max_value" = Some mx
    ∧ extractFeatures w !! "peak_to_mean_ratio" = Some ratio
    ∧ (0 < mu → ratio = mx / mu ∧ 1 <= ratio)
    ∧ (mu <= 0 → ratio = 0).
Proof.
  intros Hne. destruct (Values w) as [| v0 vs] eqn:Hv; [done |].
  destruct (extractFeatures_nonempty w v0 vs Hv) as (Hmu & _ & Hmx & _ & _ & _ & Hr).
  eexists _, _, _. split; [exact Hmu |].
  split; [exact Hmx |]. split; [exact Hr |].
  rewrite Hv.
  destruct (maxmin_fold_bounds (v0 :: vs) v0 v0) as (_ & _ & Hall).
  pose proof (mean_of_bounds (v0 :: vs) _ _ ltac:(done) Hall) as [_ Hle].
  rewrite stat_Mean_exact.
  set (mx := (fold_left maxmin_step (v0 :: vs) (v0, v0)).1) in *.
  set (mu := mean_of (v0 :: vs)) in *.
  cbn [flt fdiv f0 exact]. unfold R_ltb. split.
  - intros Hpos. destruct (Rlt_dec 0 mu); [| lra]. split; [done |].
    assert (mx / mu * mu = mx) as Hq by (field; lra).
    nra.
  - intros Hnp. destruct (Rlt_dec 0 mu); [lra | done].
Qed.

(** X18: in exact arithmetic, for a window with at least two samples,
    std_dev is 0 exactly when all samples are equal. *)
Theorem exact_std_dev_zero w :
  (2 ≤ length (Values w))%nat →
  extractFeatures w !! "std_dev" = Some 0
  ↔ ∀ u v, u ∈ Values w → v ∈ Values w → u = v.
Proof.
  intros Hlen. destruct (Values w) as [| v0 vs] eqn:Hv; [cbn in Hlen; lia |].
  destruct (extractFeatures_nonempty w v0 vs Hv) as (_ & -> & _).
  rewrite Hv. set (x := v0 :: vs) in *.
  rewrite stat_StdDev_exact by done. unfold sample_std_dev, sum_sq_dev, sum_list.
  cbn [fadd fsub fmul fdiv fsqrt f0 of_int exact].
  assert (0 < IZR (Z.of_nat (length x) - 1)) as Hn.
  { apply IZR_lt. lia. }
  pose proof (sum_squares_nonneg x (mean_of x)) as Hnn.
  set (S := foldr Rplus 0 (map (λ v, (v - mean_of x) * (v - mean_of x)) x)) in *.
  set (n1 := IZR (Z.of_nat (length x) - 1)) in *.
  assert (S / n1 * n1 = S) as Hq by (field; lra).
  assert (0 <= S / n1) as Hdiv.
  { unfold Rdiv. apply Rmult_le_pos; [lra |]. left. by apply Rinv_0_lt_compat. }
  split.
  - intros [= Hs]. apply sqrt_eq_0 in Hs; [| exact Hdiv].
    assert (S = 0) as HS by nra.
    pose proof (proj1 (sum_squares_zero x (mean_of x)) HS) as Hmean. clear HS.
    rename Hmean into HS.
    intros u v Hu Hv'. rewrite (HS u Hu), (HS v Hv'). done.
  - intros Hall. f_equal.
    assert (∀ v, v ∈ x → v0 <= v <= v0) as Hb.
    { intros v Hv'. rewrite (Hall v v0 Hv') by left. lra. }
    pose proof (mean_of_bounds x v0 v0 ltac:(done) Hb) as Hmu.
    assert (S = 0) as HS.
    { refine (proj2 (sum_squares_zero x (mean_of x)) _). intros v Hv'.
      rewrite (Hall v v0 Hv') by left. lra. }
    rewrite HS. unfold Rdiv. rewrite Rmult_0_l. apply sqrt_0.
Qed.
End ExactFacts.

(** ** Instances of the conditional statements *)

Lemma store_wf_default_detector : store_wf default_detector.
Proof. split; cbn; intros *; by rewrite lookup_empty. Qed.

Lemma store_wf_one_window_detector : store_wf one_window_detector.
Proof. apply updateWindow_store_wf, store_wf_default_detector. Qed.

Lemma reachable_one_window_detector : reachable one_window_detector.
Proof.
  unfold one_window_detector, default_detector. apply reach_updateWindow, reach_new.
Qed.

Lemma reachable_store_wf_witness :
  reachable one_window_detector
  ∧ store_wf one_window_detector
  ∧ ∀ k, is_Some (getWindow one_window_detector k) →
         is_Some (openWindow one_window_detector k).
Proof.
  split; [exact reachable_one_window_detector |].
  apply (reachable_store_wf one_window_detector reachable_one_window_detector).
Defined.

Lemma updateWindow_openWindow_witness :
  store_wf one_window_detector
  ∧ ∀ k', k' ≠ "fortinet.firewall" →
      openWindow (updateWindow one_window_detector "fortinet.firewall" 200%float
                    "192.168.1.100" 1705314601000000000) k'
      = openWindow one_window_detector k'.
Proof.
  split; [exact store_wf_one_window_detector |].
  apply (updateWindow_openWindow one_window_detector "fortinet.firewall" 200%float
           "192.168.1.100" 1705314601000000000 store_wf_one_window_detector).
Defined.

Lemma clearWindow_then_updateWindow_witness :
  store_wf one_window_detector
  ∧ getWindow (clearWindow one_window_detector "fortinet.firewall") "fortinet.firewall"
    = None.
Proof.
  split; [exact store_wf_one_window_detector |].
  apply (clearWindow_then_updateWindow one_window_detector "fortinet.firewall"
           200%float "192.168.1.100" 1705314601000000000 store_wf_one_window_detector).
Defined.

Lemma reachable_windows_filled_witness :
  reachable one_window_detector
  ∧ windowsCreated one_window_detector = length (heap one_window_detector).
Proof.
  split; [exact reachable_one_window_detector |].
  apply (reachable_windows_filled one_window_detector reachable_one_window_detector).
Defined.

Lemma reachable_window_span_witness :
  reachable one_window_detector
  ∧ 0 ≤ windowDuration one_window_detector
  ∧ ∀ p w, heap one_window_detector !! p = Some w →
      StartTime w + windowDuration one_window_detector ≤ EndTime w.
Proof.
  assert (0 ≤ windowDuration one_window_detector) as Hd by (vm_compute; discriminate).
  split; [exact reachable_one_window_detector |]. split; [exact Hd |].
  apply (reachable_window_span one_window_detector reachable_one_window_detector Hd).
Defined.

Lemma extractMetricValue_metricSwitch_witness :
  "bytes_sent" ∈ ["connection_count"; "bytes_sent"; "bytes_recv"]
  ∧ metricSwitch (F := float) checkpoint_log "bytes_sent"
    = Some (extractMetricValue checkpoint_log "bytes_sent").
Proof.
  assert ("bytes_sent" ∈ ["connection_count"; "bytes_sent"; "bytes_recv"]) as Hin
    by (right; left).
  split; [exact Hin |].
  apply (proj1 (extractMetricValue_metricSwitch (F := float) checkpoint_log "bytes_sent")
           Hin).
Defined.

Lemma processLog_decision_witness :
  ∃ msg,
    store_wf default_detector
    ∧ (processLog default_detector test_log clock_later).2.1 = Some msg
    ∧ d_topic msg
      = (if d_is_anomaly msg then anomalyTopic default_detector
         else normalTopic default_detector).
Proof.
  eexists. split; [exact store_wf_default_detector |].
  split; [vm_compute; reflexivity |].
  destruct (processLog_decision default_detector test_log clock_later _
              store_wf_default_detector eq_refl)
    as (mf & window & _ & _ & _ & _ & _ & _ & _ & _ & _ & _ & _ & _ & Htopic).
  exact Htopic.
Defined.

Lemma processLog_flush_delay_witness :
  ∃ msg,
    store_wf default_detector
    ∧ 0 ≤ windowDuration default_detector
    ∧ (processLog default_detector test_log clock_later).2.1 = Some msg
    ∧ Timestamp test_log + windowDuration default_detector ≤ clock_later.
Proof.
  assert (0 ≤ windowDuration default_detector) as Hd by (vm_compute; discriminate).
  eexists. split; [exact store_wf_default_detector |]. split; [exact Hd |].
  split; [vm_compute; reflexivity |].
  apply (processLog_flush_delay default_detector test_log clock_later _
           store_wf_default_detector Hd eq_refl).
Defined.

Lemma concurrent_upserts_all_kept_witness :
  ∃ w',
    store_wf default_detector
    ∧ NoDup upserting_schedule.*1
    ∧ openWindow (run_schedule default_detector upserting_callers upserting_schedule).1
        "fortinet.firewall" = Some w'
    ∧ Values w'
      = values_for "fortinet.firewall"
          (omap (λ i, upserting_callers !! i ≫= upsert_of) upserting_schedule.*1).
Proof.
  assert (NoDup upserting_schedule.*1) as Hnd.
  { apply (bool_decide_unpack _). vm_compute. reflexivity. }
  assert (∀ i, i ∈ upserting_schedule.*1 →
               is_Some (upserting_callers !! i ≫= upsert_of)) as Hall.
  { intros i Hi. cbn in Hi.
    apply elem_of_cons in Hi as [-> | Hi]; [by eexists |].
    apply elem_of_cons in Hi as [-> | Hi]; [by eexists |].
    by apply elem_of_nil in Hi. }
  eexists. split; [exact store_wf_default_detector |]. split; [exact Hnd |].
  split; [vm_compute; reflexivity |].
  apply (concurrent_upserts_all_kept default_detector upserting_callers
           upserting_schedule "fortinet.firewall" _ store_wf_default_detector Hnd Hall
           eq_refl).
Defined.

Lemma windowDuration_range_witness :
  0 ≤ windowSeconds default_detector ≤ 9223372036
  ∧ windowDuration default_detector = windowSeconds default_detector * 1000000000.
Proof.
  assert (0 ≤ windowSeconds default_detector ≤ 9223372036) as Hs by (cbn; lia).
  split; [exact Hs |].
  apply (proj1 (windowDuration_range default_detector) Hs).
Defined.

Lemma scoreAnomaly_default_threshold_witness :
  ∃ msg,
    scoreThreshold default_detector = 0.7%float
    ∧ (processLog default_detector test_log clock_later).2.1 = Some msg
    ∧ d_is_anomaly msg
      = bool_decide (3 ≤ count_true (triggers (d_features msg)))%nat.
Proof.
  eexists. split; [reflexivity |]. split; [vm_compute; reflexivity |].
  apply (proj2 scoreAnomaly_default_threshold default_detector test_log clock_later _
           eq_refl eq_refl).
Defined.

Lemma scoreAnomaly_monotone_witness :
  Forall2 (λ b b' : bool, b = true → b' = true)
    (triggers calm_features) (triggers alarming_features)
  ∧ PrimFloat.leb (scoreAnomaly calm_features) (scoreAnomaly alarming_features) = true.
Proof.
  assert (Forall2 (λ b b' : bool, b = true → b' = true)
            (triggers calm_features) (triggers alarming_features)) as Hle.
  { vm_compute. repeat constructor; discriminate. }
  split; [exact Hle |].
  apply (scoreAnomaly_monotone calm_features alarming_features Hle).
Defined.

Lemma exact_feature_relations_witness :
  Values exact_window ≠ []
  ∧ ∃ mu ratio,
      extractFeatures exact_window !! "mean_value" = Some mu
      ∧ extractFeatures exact_window !! "peak_to_mean_ratio" = Some ratio
      ∧ (0 < mu → 1 <= ratio)%R.
Proof.
  split; [discriminate |].
  destruct (exact_feature_relations exact_window ltac:(discriminate))
    as (mu & mx & ratio & Hmu & _ & Hr & Hpos & _).
  exists mu, ratio. split; [exact Hmu |]. split; [exact Hr |].
  intros Hlt. exact (proj2 (Hpos Hlt)).
Defined.

Lemma exact_std_dev_zero_witness :
  (2 ≤ length (Values exact_window))%nat
  ∧ (extractFeatures exact_window !! "std_dev" = Some 0%R
     ↔ ∀ u v, u ∈ Values exact_window → v ∈ Values exact_window → u = v).
Proof.
  assert (2 ≤ length (Values exact_window))%nat as Hlen by (cbn; lia).
  split; [exact Hlen |].
  apply (exact_std_dev_zero exact_window Hlen).
Defined.
